(** * llama-android.cpp: the JNI shim around the llama inference library

    A shallow embedding of [app/src/main/cpp/llama-android.cpp] and the
    properties of its three entry points [nativeInit], [nativeGenerate] and
    [nativeDestroy].

    The shim computes almost nothing itself: it calls the JNI environment,
    the C library, the C++ runtime and the llama library in some order and
    with some arguments, looks at what they answer, and keeps one heap
    object, the [LlamaWrapper].  The model therefore has three parts:

    - every function the shim calls is an [extern_call]; the outside world is
      an [oracle] that answers a call from the history of the calls made so
      far, so that any deterministic behaviour of the libraries, stateful or
      not, is one oracle, and a theorem for every oracle holds whatever the
      libraries do;
    - the shim's own state is the heap of wrappers and the history of calls;
    - an entry point is a computation in a state monad with three outcomes:
      it returns, it leaves by a C++ exception nobody catches, or it has
      undefined behaviour.

    Left out: the log lines ([LOGI], [LOGE]) and the clock readings that
    only feed them.  The two library calls that appear as arguments of a log
    line (line 199) are kept.  Memory is taken to be available for every
    allocation of a size that can exist; a request whose size cannot exist
    fails as the C++ library makes it fail. *)

From Stdlib Require Import ZArith String Ascii List QArith Lia.
From stdpp Require Import gmap.
Import ListNotations.

Local Open Scope string_scope.
Local Open Scope list_scope.
Local Open Scope Z_scope.

(** ** Values that cross the boundary *)

(** A machine address; [0] is the null pointer.  A [jlong] handle is the
    address of a wrapper ([reinterpret_cast] is the identity on it). *)
Definition ptr := Z.

(** A JNI object reference ([jstring]). *)
Definition jstring := Z.

(** The wrapper object of the shim (lines 19-23). *)
Record LlamaWrapper := {
  model : ptr;
  ctx : ptr;
  sampler : ptr
}.

(** The fields of [llama_model_params] the shim writes; [model_other] stands
    for the fields it leaves as the library's defaults. *)
Record llama_model_params := {
  n_gpu_layers : Z;
  use_mmap : bool;
  use_mlock : bool;
  model_other : Z
}.

(** The fields of [llama_context_params] the shim writes; [ctx_other] stands
    for the fields it leaves as the library's defaults. *)
Record llama_context_params := {
  n_ctx : Z;
  n_batch : Z;
  n_threads : Z;
  n_threads_batch : Z;
  ctx_other : Z
}.

(** [llama_sampler_chain_params] and [llama_batch] are passed through by
    value and never inspected. *)
Inductive llama_sampler_chain_params := ChainParams (id : Z).
Inductive llama_batch := Batch (id : Z).

(** [LLAMA_DEFAULT_SEED] of llama.h. *)
Definition LLAMA_DEFAULT_SEED : Z := 4294967295.

(** [SEEK_END] of stdio.h. *)
Definition SEEK_END : Z := 2.

(** The string returned when the context cannot be recreated (line 195). *)
Definition context_failure_message : string := "上下文重建失败".

(** ** The calls the shim makes *)

Inductive extern_call :=
(* JNI environment *)
| GetStringUTFChars (s : jstring)
| ReleaseStringUTFChars (s : jstring) (chars : string)
| NewStringUTF (bytes : string)
(* C library *)
| fopen (path mode : string)
| fseek (file : ptr) (offset whence : Z)
| ftell (file : ptr)
| fclose (file : ptr)
(* C++ runtime *)
| operator_new (w : LlamaWrapper)
| operator_delete (p : ptr)
(* llama library *)
| llama_backend_init
| llama_backend_free
| llama_model_default_params
| llama_model_load_from_file (path : string) (params : llama_model_params)
| llama_model_free (m : ptr)
| llama_context_default_params
| llama_init_from_model (m : ptr) (params : llama_context_params)
| llama_new_context_with_model (m : ptr) (params : llama_context_params)
| llama_free (c : ptr)
| llama_n_ctx (c : ptr)
| llama_n_batch (c : ptr)
| llama_model_get_vocab (m : ptr)
| llama_sampler_chain_default_params
| llama_sampler_chain_init (params : llama_sampler_chain_params)
| llama_sampler_chain_add (chain smpl : ptr)
| llama_sampler_init_temp (t : Q)
| llama_sampler_init_top_k (k : Z)
| llama_sampler_init_top_p (p : Q) (min_keep : Z)
| llama_sampler_init_dist (seed : Z)
| llama_sampler_free (smpl : ptr)
| llama_sampler_sample (smpl c : ptr) (idx : Z)
| llama_tokenize (vocab : ptr) (text : string) (text_len : Z)
    (tokens : option (list Z)) (n_tokens_max : Z)
    (add_special parse_special : bool)
| llama_batch_get_one (tokens : list Z) (n_tokens : Z)
| llama_decode (c : ptr) (batch : llama_batch)
| llama_vocab_is_eog (vocab : ptr) (token : Z)
| llama_token_to_piece (vocab : ptr) (token : Z) (length lstrip : Z)
    (special : bool).

(** What each call gives back.  A call that fills a buffer of the caller
    gives back what it stored there next to its return value:
    [llama_tokenize] the tokens, [llama_token_to_piece] the bytes.
    [GetStringUTFChars] gives [None] for a null pointer. *)
Definition resp (c : extern_call) : Type :=
  match c with
  | GetStringUTFChars _ => option string
  | ReleaseStringUTFChars _ _ => unit
  | NewStringUTF _ => jstring
  | fopen _ _ => ptr
  | fseek _ _ _ => Z
  | ftell _ => Z
  | fclose _ => Z
  | operator_new _ => ptr
  | operator_delete _ => unit
  | llama_backend_init => unit
  | llama_backend_free => unit
  | llama_model_default_params => llama_model_params
  | llama_model_load_from_file _ _ => ptr
  | llama_model_free _ => unit
  | llama_context_default_params => llama_context_params
  | llama_init_from_model _ _ => ptr
  | llama_new_context_with_model _ _ => ptr
  | llama_free _ => unit
  | llama_n_ctx _ => Z
  | llama_n_batch _ => Z
  | llama_model_get_vocab _ => ptr
  | llama_sampler_chain_default_params => llama_sampler_chain_params
  | llama_sampler_chain_init _ => ptr
  | llama_sampler_chain_add _ _ => unit
  | llama_sampler_init_temp _ => ptr
  | llama_sampler_init_top_k _ => ptr
  | llama_sampler_init_top_p _ _ => ptr
  | llama_sampler_init_dist _ => ptr
  | llama_sampler_free _ => unit
  | llama_sampler_sample _ _ _ => Z
  | llama_tokenize _ _ _ _ _ _ _ => Z * list Z
  | llama_batch_get_one _ _ => llama_batch
  | llama_decode _ _ => Z
  | llama_vocab_is_eog _ _ => bool
  | llama_token_to_piece _ _ _ _ _ => Z * string
  end.

(** The outside world: the answer to a call, given the calls made before it
    (oldest first). *)
Definition oracle := list extern_call -> forall c : extern_call, resp c.

(** ** State and outcomes *)

Record state := {
  heap : gmap Z LlamaWrapper;
  trace : list extern_call
}.

(** The C++ library reports a string capacity that cannot exist by
    [std::length_error] or [std::bad_alloc], depending on its [max_size()];
    [operator new] reports failure by [std::bad_alloc].  The model does not
    tell them apart. *)
Inductive cxx_exception := alloc_failure.

Inductive outcome (A : Type) :=
| Returned (a : A)
| Thrown (e : cxx_exception)
| Undefined.
Arguments Returned {A} a.
Arguments Thrown {A} e.
Arguments Undefined {A}.

Definition M (A : Type) : Type := state -> outcome A * state.

Definition ret {A} (a : A) : M A := fun s => (Returned a, s).

Definition bind {A B} (m : M A) (k : A -> M B) : M B :=
  fun s =>
    match m s with
    | (Returned a, s') => k a s'
    | (Thrown e, s') => (Thrown e, s')
    | (Undefined, s') => (Undefined, s')
    end.

Definition throw {A} (e : cxx_exception) : M A := fun s => (Thrown e, s).

Definition undefined {A} : M A := fun s => (Undefined, s).

Notation "x <- m ;; k" := (bind m (fun x => k))
  (at level 100, m at next level, right associativity).
Notation "m ;;; k" := (bind m (fun _ => k))
  (at level 100, right associativity).

(** ** C integers and C strings *)

Definition INT_MIN : Z := - 2 ^ 31.
Definition INT_MAX : Z := 2 ^ 31 - 1.

Definition in_int (z : Z) : bool := (INT_MIN <=? z) && (z <=? INT_MAX).

(** The value of an [int] expression: overflow of signed arithmetic is
    undefined behaviour. *)
Definition int (z : Z) : M Z := if in_int z then ret z else undefined.

(** Conversion of a [uint32_t] to [int], modulo 2^32. *)
Definition uint_to_int (z : Z) : Z :=
  let u := z mod 2 ^ 32 in
  if u <? 2 ^ 31 then u else u - 2 ^ 32.

(** The bytes of a character array up to its first NUL: what [strlen] and
    [NewStringUTF] see of it. *)
Fixpoint c_str (s : string) : string :=
  match s with
  | EmptyString => EmptyString
  | String a s' => if Ascii.eqb a zero then EmptyString else String a (c_str s')
  end.

Definition strlen (s : string) : Z := Z.of_nat (String.length (c_str s)).

Definition is_null (p : ptr) : bool := p =? 0.

(** ** The shim *)

Section Shim.

(** The outside world. *)
Variable lib : oracle.

(** The two calls in the argument list of the log line at line 199 are
    evaluated in an order the language leaves open: right to left when
    [log_args_right_to_left], left to right otherwise. *)
Variable log_args_right_to_left : bool.

(** *** Primitive computations *)

(** A call to the outside: the oracle answers from the history, and the
    call is added to it. *)
Definition call (c : extern_call) : M (resp c) :=
  fun s =>
    (Returned (lib (trace s) c),
     {| heap := heap s; trace := trace s ++ [c] |}).

(** [wrapper->f], read.  Reading through an address that holds no wrapper
    is undefined behaviour. *)
Definition field (f : LlamaWrapper -> ptr) (handle : Z) : M ptr :=
  fun s =>
    match heap s !! handle with
    | Some w => (Returned (f w), s)
    | None => (Undefined, s)
    end.

(** [wrapper->f = v], as the update [upd] of the wrapper. *)
Definition assign (upd : LlamaWrapper -> LlamaWrapper) (handle : Z) : M unit :=
  fun s =>
    match heap s !! handle with
    | Some w =>
        (Returned tt, {| heap := <[handle := upd w]> (heap s); trace := trace s |})
    | None => (Undefined, s)
    end.

Definition with_model (v : ptr) (w : LlamaWrapper) : LlamaWrapper :=
  {| model := v; ctx := ctx w; sampler := sampler w |}.
Definition with_ctx (v : ptr) (w : LlamaWrapper) : LlamaWrapper :=
  {| model := model w; ctx := v; sampler := sampler w |}.
Definition with_sampler (v : ptr) (w : LlamaWrapper) : LlamaWrapper :=
  {| model := model w; ctx := ctx w; sampler := v |}.

(** [new LlamaWrapper{...}]: the runtime chooses the address; it reports
    failure by an exception, never by a null pointer. *)
Definition new_wrapper (w : LlamaWrapper) : M ptr :=
  p <- call (operator_new w) ;;
  if is_null p then throw alloc_failure
  else fun s =>
    (Returned p, {| heap := <[p := w]> (heap s); trace := trace s |}).

(** [delete wrapper]. *)
Definition delete_wrapper (handle : Z) : M unit :=
  fun s =>
    match heap s !! handle with
    | Some _ =>
        call (operator_delete handle)
          {| heap := delete handle (heap s); trace := trace s |}
    | None => (Undefined, s)
    end.

(** [std::string::reserve(n)] for an [int] [n]: the argument is converted
    to [size_type], so a negative [n] asks for 2^64 + n bytes (2^32 + n on
    a 32-bit target), more than half of the address space, and the library
    throws. *)
Definition string_reserve (n : Z) : M unit :=
  if n <? 0 then throw alloc_failure else ret tt.

(** [result.append(buf, n)] where [buf] holds the bytes [stored] by the
    library, of a 256-byte array: reading more than was stored, or a store
    beyond the array, is undefined behaviour. *)
Definition string_append (result stored : string) (n : Z) : M string :=
  if (n <=? Z.of_nat (String.length stored))
     && (Z.of_nat (String.length stored) <=? 256)
  then ret (result ++ String.substring 0 (Z.to_nat n) stored)%string
  else undefined.

(** The contents of a vector after the library stored [written] from its
    start. *)
Definition overwrite (buffer written : list Z) : list Z :=
  firstn (List.length buffer)
         (written ++ skipn (List.length written) buffer).

(** The values given to [llama_context_params] (lines 96-99 and 187-190). *)
Definition context_params (defaults : llama_context_params)
  : llama_context_params :=
  {| n_ctx := 2048;
     n_batch := 512;
     n_threads := 4;
     n_threads_batch := 4;
     ctx_other := ctx_other defaults |}.

(** The values given to [llama_model_params] (lines 60-64). *)
Definition model_params (defaults : llama_model_params)
  : llama_model_params :=
  {| n_gpu_layers := 0;
     use_mmap := true;
     use_mlock := false;
     model_other := model_other defaults |}.

(** *** nativeInit (lines 25-147) *)

(** Lines 126-130. *)
Definition create_sampler : M ptr :=
  chain_params <- call llama_sampler_chain_default_params ;;
  sampler <- call (llama_sampler_chain_init chain_params) ;;
  temp <- call (llama_sampler_init_temp (8 # 10)) ;;
  call (llama_sampler_chain_add sampler temp) ;;;
  top_k <- call (llama_sampler_init_top_k 40) ;;
  call (llama_sampler_chain_add sampler top_k) ;;;
  top_p <- call (llama_sampler_init_top_p (95 # 100) 1) ;;
  call (llama_sampler_chain_add sampler top_p) ;;;
  dist <- call (llama_sampler_init_dist LLAMA_DEFAULT_SEED) ;;
  call (llama_sampler_chain_add sampler dist) ;;;
  ret sampler.

Definition nativeInit (model_path_jstr : jstring) : M Z :=
  chars <- call (GetStringUTFChars model_path_jstr) ;;
  match chars with
  | None => undefined            (* a null pointer given to fopen *)
  | Some model_path =>
    file <- call (fopen model_path "rb") ;;
    if is_null file then
      call (ReleaseStringUTFChars model_path_jstr model_path) ;;;
      ret 0
    else
      call (fseek file 0 SEEK_END) ;;;
      call (ftell file) ;;;
      call (fclose file) ;;;
      call llama_backend_init ;;;
      defaults <- call llama_model_default_params ;;
      model <- call (llama_model_load_from_file model_path
                                               (model_params defaults)) ;;
      call (ReleaseStringUTFChars model_path_jstr model_path) ;;;
      if is_null model then
        call llama_backend_free ;;;
        ret 0
      else
        ctx_defaults <- call llama_context_default_params ;;
        ctx <- call (llama_init_from_model model
                                          (context_params ctx_defaults)) ;;
        if is_null ctx then
          call (llama_model_free model) ;;;
          call llama_backend_free ;;;
          ret 0
        else
          sampler <- create_sampler ;;
          new_wrapper {| model := model; ctx := ctx; sampler := sampler |}
  end.

(** *** nativeGenerate (lines 149-420) *)

(** Lines 180-192: free the old context, create a new one. *)
Definition recreate_context (handle : Z) : M unit :=
  old <- field ctx handle ;;
  (if is_null old then ret tt
   else call (llama_free old) ;;; assign (with_ctx 0) handle) ;;;
  defaults <- call llama_context_default_params ;;
  m <- field model handle ;;
  new_ctx <- call (llama_new_context_with_model m (context_params defaults)) ;;
  assign (with_ctx new_ctx) handle.

(** The arguments of the log line at lines 198-199. *)
Definition log_context_recreated (handle : Z) : M unit :=
  c <- field ctx handle ;;
  if log_args_right_to_left
  then call (llama_n_batch c) ;;; call (llama_n_ctx c) ;;; ret tt
  else call (llama_n_ctx c) ;;; call (llama_n_batch c) ;;; ret tt.

(** Lines 349-386: the generation loop.  [n] is the number of iterations
    left, [max_tokens - i]; the loop gives back the text and [n_decoded]. *)
Fixpoint generation_loop (handle : Z) (vocab : ptr) (n : nat)
    (result : string) (n_decoded : Z) : M (string * Z) :=
  match n with
  | O => ret (result, n_decoded)
  | S n' =>
    smpl <- field sampler handle ;;
    c <- field ctx handle ;;
    new_token_id <- call (llama_sampler_sample smpl c (-1)) ;;
    eog <- call (llama_vocab_is_eog vocab new_token_id) ;;
    if eog : bool then ret (result, n_decoded)
    else
      piece <- call (llama_token_to_piece vocab new_token_id 256 0 true) ;;
      if fst piece <? 0 then ret (result, n_decoded)
      else
        result' <- (if 0 <? fst piece
                    then string_append result (snd piece) (fst piece)
                    else ret result) ;;
        batch <- call (llama_batch_get_one [new_token_id] 1) ;;
        c' <- field ctx handle ;;
        decoded <- call (llama_decode c' batch) ;;
        if negb (decoded =? 0) then ret (result', n_decoded)
        else generation_loop handle vocab n' result' (n_decoded + 1)
  end.

(** Lines 246-420: from the context-length check to the end. *)
Definition decode_and_generate (handle : Z) (prompt_jstr : jstring)
    (prompt : string) (vocab : ptr) (n_prompt_tokens max_tokens : Z)
  : M jstring :=
  c <- field ctx handle ;;
  reported <- call (llama_n_ctx c) ;;
  let n_ctx := uint_to_int reported in
  total <- int (n_prompt_tokens + max_tokens) ;;
  max_tokens <- (if n_ctx <? total
                 then d <- int (n_ctx - n_prompt_tokens) ;; int (d - 10)
                 else ret max_tokens) ;;
  let tokens_list := repeat 0 (Z.to_nat n_prompt_tokens) in
  filled <- call (llama_tokenize vocab prompt (strlen prompt)
                                 (Some tokens_list)
                                 (Z.of_nat (List.length tokens_list))
                                 true true) ;;
  let tokens_list := overwrite tokens_list (snd filled) in
  call (ReleaseStringUTFChars prompt_jstr prompt) ;;;
  batch <- call (llama_batch_get_one tokens_list
                                     (Z.of_nat (List.length tokens_list))) ;;
  c <- field ctx handle ;;
  decode_result <- call (llama_decode c batch) ;;
  if negb (decode_result =? 0) then call (NewStringUTF EmptyString)
  else
    capacity <- int (max_tokens * 4) ;;
    string_reserve capacity ;;;
    generated <- generation_loop handle vocab (Z.to_nat max_tokens) EmptyString 0 ;;
    call (NewStringUTF (c_str (fst generated))).

(** Lines 201-242: the prompt, the vocabulary, the length of the
    tokenization. *)
Definition tokenize_and_generate (handle : Z) (prompt_jstr : jstring)
    (max_tokens : Z) : M jstring :=
  chars <- call (GetStringUTFChars prompt_jstr) ;;
  match chars with
  | None => call (NewStringUTF EmptyString)
  | Some prompt =>
    m <- field model handle ;;
    vocab <- call (llama_model_get_vocab m) ;;
    if is_null vocab then
      call (ReleaseStringUTFChars prompt_jstr prompt) ;;;
      call (NewStringUTF EmptyString)
    else
      counted <- call (llama_tokenize vocab prompt (strlen prompt)
                                      None 0 true true) ;;
      n_prompt_tokens <- int (- fst counted) ;;
      if n_prompt_tokens <=? 0 then
        call (ReleaseStringUTFChars prompt_jstr prompt) ;;;
        call (NewStringUTF EmptyString)
      else
        decode_and_generate handle prompt_jstr prompt vocab
                            n_prompt_tokens max_tokens
  end.

Definition nativeGenerate (handle : Z) (prompt_jstr : jstring)
    (max_tokens : Z) : M jstring :=
  if is_null handle then call (NewStringUTF EmptyString)
  else
    m <- field model handle ;;
    if is_null m then call (NewStringUTF EmptyString)
    else
      recreate_context handle ;;;
      new_ctx <- field ctx handle ;;
      if is_null new_ctx then call (NewStringUTF context_failure_message)
      else
        log_context_recreated handle ;;;
        tokenize_and_generate handle prompt_jstr max_tokens.

(** *** nativeDestroy (lines 422-450) *)

(** Lines 431-444: free what the wrapper holds. *)
Definition release_fields (handle : Z) : M unit :=
  smpl <- field sampler handle ;;
  (if is_null smpl then ret tt
   else call (llama_sampler_free smpl) ;;; assign (with_sampler 0) handle) ;;;
  c <- field ctx handle ;;
  (if is_null c then ret tt
   else call (llama_free c) ;;; assign (with_ctx 0) handle) ;;;
  m <- field model handle ;;
  (if is_null m then ret tt
   else call (llama_model_free m) ;;; assign (with_model 0) handle).

Definition nativeDestroy (handle : Z) : M unit :=
  if is_null handle then ret tt
  else
    release_fields handle ;;;
    delete_wrapper handle ;;;
    call llama_backend_free.

End Shim.

Arguments call lib c s /.
Arguments ret {A} a s /.
Arguments throw {A} e s /.
Arguments undefined {A} s /.

(** ** Sample worlds, for running the shim *)

Definition is_decode (c : extern_call) : bool :=
  match c with llama_decode _ _ => true | _ => false end.

(** The number of [llama_decode] calls in a history. *)
Definition decodes (t : list extern_call) : nat :=
  List.length (List.filter is_decode t).

Module Sample.

(** A library in which everything works: every pointer it gives is non-null,
    a prompt has three tokens, the context holds 2048, every token is the
    piece ["Hi"], and no token ends the generation. *)
Definition working : oracle := fun _ c =>
  match c return resp c with
  | GetStringUTFChars _ => Some "hello"
  | ReleaseStringUTFChars _ _ => tt
  | NewStringUTF _ => 900
  | fopen _ _ => 100
  | fseek _ _ _ => 0
  | ftell _ => 4096
  | fclose _ => 0
  | operator_new _ => 500
  | operator_delete _ => tt
  | llama_backend_init => tt
  | llama_backend_free => tt
  | llama_model_default_params =>
      {| n_gpu_layers := 99; use_mmap := false; use_mlock := true;
         model_other := 7 |}
  | llama_model_load_from_file _ _ => 200
  | llama_model_free _ => tt
  | llama_context_default_params =>
      {| n_ctx := 512; n_batch := 2048; n_threads := 1;
         n_threads_batch := 1; ctx_other := 9 |}
  | llama_init_from_model _ _ => 300
  | llama_new_context_with_model _ _ => 301
  | llama_free _ => tt
  | llama_n_ctx _ => 2048
  | llama_n_batch _ => 512
  | llama_model_get_vocab _ => 250
  | llama_sampler_chain_default_params => ChainParams 1
  | llama_sampler_chain_init _ => 400
  | llama_sampler_chain_add _ _ => tt
  | llama_sampler_init_temp _ => 401
  | llama_sampler_init_top_k _ => 402
  | llama_sampler_init_top_p _ _ => 403
  | llama_sampler_init_dist _ => 404
  | llama_sampler_free _ => tt
  | llama_sampler_sample _ _ _ => 42
  | llama_tokenize _ _ _ None _ _ _ => (-3, [])
  | llama_tokenize _ _ _ (Some _) _ _ _ => (3, [1; 15043; 29871])
  | llama_batch_get_one _ _ => Batch 1
  | llama_decode _ _ => 0
  | llama_vocab_is_eog _ _ => false
  | llama_token_to_piece _ _ _ _ _ => (2, "Hi")
  end.

(** The same, but no file can be opened. *)
Definition no_file : oracle := fun t c =>
  match c as c' return resp c' with
  | fopen _ _ => 0
  | c' => working t c'
  end.

(** The same, but the model cannot be loaded. *)
Definition no_model : oracle := fun t c =>
  match c as c' return resp c' with
  | llama_model_load_from_file _ _ => 0
  | c' => working t c'
  end.

(** The same, but no context can be created. *)
Definition no_context : oracle := fun t c =>
  match c as c' return resp c' with
  | llama_init_from_model _ _ => 0
  | llama_new_context_with_model _ _ => 0
  | c' => working t c'
  end.

(** The same as [working], but only the first [llama_decode] succeeds: the
    prompt is decoded, the first token of the generation loop is not. *)
Definition decode_fails_in_loop : oracle := fun t c =>
  match c as c' return resp c' with
  | llama_decode _ _ => if Nat.eqb (decodes t) 0 then 0 else 1
  | c' => working t c'
  end.

(** The same as [working], but a prompt has 2045 tokens. *)
Definition long_prompt : oracle := fun t c =>
  match c as c' return resp c' with
  | llama_tokenize _ _ _ None _ _ _ => (-2045, [])
  | llama_tokenize _ _ _ (Some _) _ _ _ => (2045, [])
  | c' => working t c'
  end.

(** A wrapper as [nativeInit] leaves it, at address 500. *)
Definition wrapper : LlamaWrapper :=
  {| model := 200; ctx := 300; sampler := 400 |}.

Definition initial : state := {| heap := {[ 500 := wrapper ]}; trace := [] |}.

Definition empty : state := {| heap := ∅; trace := [] |}.

End Sample.

(** ** Vocabulary of the statements *)

(** The state [s] after the calls [calls]. *)
Definition after (s : state) (calls : list extern_call) : state :=
  {| heap := heap s; trace := trace s ++ calls |}.

(** The end of a call of [nativeGenerate] in the state [s]: the Java string
    of [text] is created and returned. *)
Definition returning (lib : oracle) (text : string) (s : state)
  : outcome jstring * state :=
  (Returned (lib (trace s) (NewStringUTF text)), after s [NewStringUTF text]).

(** A run ends by returning the Java string of [text]. *)
Definition returns_string (lib : oracle) (run : outcome jstring * state)
    (text : string) : Prop :=
  exists t, trace (snd run) = t ++ [NewStringUTF text] /\
            fst run = Returned (lib t (NewStringUTF text)).

(** The calls in the log line at lines 198-199. *)
Definition log_calls (right_to_left : bool) (c : ptr) : list extern_call :=
  if right_to_left then [llama_n_batch c; llama_n_ctx c]
  else [llama_n_ctx c; llama_n_batch c].

(** The limit of the generation loop, after lines 247-254. *)
Definition effective_limit (n_ctx n_prompt_tokens max_tokens : Z) : Z :=
  if n_ctx <? n_prompt_tokens + max_tokens
  then n_ctx - n_prompt_tokens - 10
  else max_tokens.

(** Lines 249-252 stay within [int]. *)
Definition limit_defined (n_ctx n_prompt_tokens max_tokens : Z) : Prop :=
  in_int (n_prompt_tokens + max_tokens) = true /\
  (n_ctx < n_prompt_tokens + max_tokens ->
   in_int (n_ctx - n_prompt_tokens) = true /\
   in_int (n_ctx - n_prompt_tokens - 10) = true).

(** The calls that free what a wrapper holds, in the order of lines
    431-444. *)
Definition frees (w : LlamaWrapper) : list extern_call :=
  (if is_null (sampler w) then [] else [llama_sampler_free (sampler w)]) ++
  (if is_null (ctx w) then [] else [llama_free (ctx w)]) ++
  (if is_null (model w) then [] else [llama_model_free (model w)]).

(** A wrapper that holds nothing. *)
Definition null_wrapper : LlamaWrapper :=
  {| model := 0; ctx := 0; sampler := 0 |}.

(** What lines 180-192 do for a wrapper [w], from the state [s]: the calls
    they make, the parameters they pass, and the context the library gives
    back. *)
Section Recreate.
Variables (lib : oracle) (s : state) (w : LlamaWrapper).

Definition free_old : list extern_call :=
  if is_null (ctx w) then [] else [llama_free (ctx w)].

Definition recreate_params : llama_context_params :=
  context_params (lib (trace s ++ free_old) llama_context_default_params).

Definition recreated_ctx : ptr :=
  lib (trace s ++ free_old ++ [llama_context_default_params])
      (llama_new_context_with_model (model w) recreate_params).

Definition recreate_calls : list extern_call :=
  free_old ++ [llama_context_default_params;
               llama_new_context_with_model (model w) recreate_params].

End Recreate.

(** The calls of a run of [nativeInit] that succeeds, in their order, for
    given answers of the outside. *)
Definition sampler_sequence (chain_params : llama_sampler_chain_params)
    (chain temp top_k top_p dist : ptr) : list extern_call :=
  [ llama_sampler_chain_default_params;
    llama_sampler_chain_init chain_params;
    llama_sampler_init_temp (8 # 10);
    llama_sampler_chain_add chain temp;
    llama_sampler_init_top_k 40;
    llama_sampler_chain_add chain top_k;
    llama_sampler_init_top_p (95 # 100) 1;
    llama_sampler_chain_add chain top_p;
    llama_sampler_init_dist LLAMA_DEFAULT_SEED;
    llama_sampler_chain_add chain dist ].

Definition init_sequence (j : jstring) (path : string) (file : ptr)
    (mparams : llama_model_params) (m : ptr)
    (cparams : llama_context_params) (c : ptr)
    (chain_params : llama_sampler_chain_params)
    (chain temp top_k top_p dist : ptr) : list extern_call :=
  [ GetStringUTFChars j;
    fopen path "rb";
    fseek file 0 SEEK_END;
    ftell file;
    fclose file;
    llama_backend_init;
    llama_model_default_params;
    llama_model_load_from_file path mparams;
    ReleaseStringUTFChars j path;
    llama_context_default_params;
    llama_init_from_model m cparams ]
  ++ sampler_sequence chain_params chain temp top_k top_p dist
  ++ [ operator_new {| model := m; ctx := c; sampler := chain |} ].

(** What a run of [nativeInit] from the state [s] gets from the outside, as
    far as each answer lets it go: the file, the model, the context, the
    sampler chain; and the calls it has made when it has each of them. *)
Section Init.
Variables (lib : oracle) (s : state) (j : jstring) (path : string).

Definition open_calls : list extern_call :=
  [GetStringUTFChars j; fopen path "rb"].

Definition init_file : ptr :=
  lib (trace s ++ [GetStringUTFChars j]) (fopen path "rb").

Definition probe_calls : list extern_call :=
  open_calls ++ [fseek init_file 0 SEEK_END; ftell init_file;
                 fclose init_file; llama_backend_init].

Definition init_model_params : llama_model_params :=
  model_params (lib (trace s ++ probe_calls) llama_model_default_params).

Definition init_model : ptr :=
  lib (trace s ++ probe_calls ++ [llama_model_default_params])
      (llama_model_load_from_file path init_model_params).

Definition load_calls : list extern_call :=
  probe_calls ++ [llama_model_default_params;
                  llama_model_load_from_file path init_model_params;
                  ReleaseStringUTFChars j path].

Definition init_context_params : llama_context_params :=
  context_params (lib (trace s ++ load_calls) llama_context_default_params).

Definition init_ctx : ptr :=
  lib (trace s ++ load_calls ++ [llama_context_default_params])
      (llama_init_from_model init_model init_context_params).

Definition context_calls : list extern_call :=
  load_calls ++ [llama_context_default_params;
                 llama_init_from_model init_model init_context_params].

Definition init_chain_params : llama_sampler_chain_params :=
  lib (trace s ++ context_calls) llama_sampler_chain_default_params.

Definition init_sampler : ptr :=
  lib (trace s ++ context_calls ++ [llama_sampler_chain_default_params])
      (llama_sampler_chain_init init_chain_params).

Definition init_wrapper : LlamaWrapper :=
  {| model := init_model; ctx := init_ctx; sampler := init_sampler |}.

Definition chain_calls : list extern_call :=
  context_calls ++ [llama_sampler_chain_default_params;
                    llama_sampler_chain_init init_chain_params].

Definition init_temp : ptr :=
  lib (trace s ++ chain_calls) (llama_sampler_init_temp (8 # 10)).

Definition temp_calls : list extern_call :=
  chain_calls ++ [llama_sampler_init_temp (8 # 10);
                  llama_sampler_chain_add init_sampler init_temp].

Definition init_top_k : ptr :=
  lib (trace s ++ temp_calls) (llama_sampler_init_top_k 40).

Definition top_k_calls : list extern_call :=
  temp_calls ++ [llama_sampler_init_top_k 40;
                 llama_sampler_chain_add init_sampler init_top_k].

Definition init_top_p : ptr :=
  lib (trace s ++ top_k_calls) (llama_sampler_init_top_p (95 # 100) 1).

Definition top_p_calls : list extern_call :=
  top_k_calls ++ [llama_sampler_init_top_p (95 # 100) 1;
                  llama_sampler_chain_add init_sampler init_top_p].

Definition init_dist : ptr :=
  lib (trace s ++ top_p_calls) (llama_sampler_init_dist LLAMA_DEFAULT_SEED).

(** The calls of a run that succeeds, each with the answers the outside
    gave to the calls before it: the sampler given to each
    [llama_sampler_chain_add] is the one the call just before created, and
    the chain is the one [llama_sampler_chain_init] gave. *)
Definition init_calls : list extern_call :=
  init_sequence j path init_file init_model_params init_model
    init_context_params init_ctx init_chain_params init_sampler
    init_temp init_top_k init_top_p init_dist.

(** The run fails: the file cannot be opened, or the model cannot be
    loaded, or the context cannot be created. *)
Definition init_fails : Prop :=
  init_file = 0 \/
  (init_file <> 0 /\ init_model = 0) \/
  (init_file <> 0 /\ init_model <> 0 /\ init_ctx = 0).

End Init.

(** The bytes [result.append(buf, n)] adds, for an answer [(n, buf)] of
    [llama_token_to_piece], and the condition for reading them. *)
Definition piece_text (piece : Z * string) : string :=
  String.substring 0 (Z.to_nat (fst piece)) (snd piece).

Definition piece_fits (piece : Z * string) : Prop :=
  fst piece <= Z.of_nat (String.length (snd piece)) <= 256.

(** A computation only adds calls to the history. *)
Definition grows {A} (m : M A) : Prop :=
  forall s, exists added, trace (snd (m s)) = trace s ++ added.

(** A computation does not write to the heap. *)
Definition keeps_heap {A} (m : M A) : Prop :=
  forall s, heap (snd (m s)) = heap s.

(** Some call of the list samples a token: the generation loop was
    entered. *)
Definition is_sample (c : extern_call) : bool :=
  match c with llama_sampler_sample _ _ _ => true | _ => false end.

Definition sampled (calls : list extern_call) : bool := existsb is_sample calls.

(** When [m] returns, its last call creates the returned string, and that
    string is empty or the one of line 195 unless a token was sampled. *)
Definition ends_plainly (lib : oracle) (m : M jstring) : Prop :=
  forall s r, fst (m s) = Returned r ->
    exists added text,
      trace (snd (m s)) = trace s ++ added ++ [NewStringUTF text] /\
      r = lib (trace s ++ added) (NewStringUTF text) /\
      (text = EmptyString \/ text = context_failure_message \/ sampled added = true).

(** ** Counting calls *)

(** The number of calls of a list that [p] accepts. *)
Definition count (p : extern_call -> bool) (calls : list extern_call) : nat :=
  List.length (List.filter p calls).

(** A computation adds at most [k] calls that [p] accepts. *)
Definition at_most (p : extern_call -> bool) (k : nat) {A} (m : M A) : Prop :=
  forall s, (count p (trace (snd (m s))) <= count p (trace s) + k)%nat.

(** A computation that returns has added at least [k] calls that [p]
    accepts. *)
Definition at_least (p : extern_call -> bool) (k : nat) {A} (m : M A)
  : Prop :=
  forall s a, fst (m s) = Returned a ->
    (count p (trace s) + k <= count p (trace (snd (m s))))%nat.

(** A computation adds only calls that [p] accepts. *)
Definition only (p : extern_call -> bool) {A} (m : M A) : Prop :=
  forall s, exists added,
    trace (snd (m s)) = trace s ++ added /\ forallb p added = true.

Definition is_release (c : extern_call) : bool :=
  match c with ReleaseStringUTFChars _ _ => true | _ => false end.

Definition is_new_context (c : extern_call) : bool :=
  match c with llama_new_context_with_model _ _ => true | _ => false end.

Definition is_tokenize (c : extern_call) : bool :=
  match c with llama_tokenize _ _ _ _ _ _ _ => true | _ => false end.

Definition is_free_context (c : extern_call) : bool :=
  match c with llama_free _ => true | _ => false end.

(** The release of the characters [chars] of the string [j]. *)
Definition is_release_of (j : jstring) (chars : string) (c : extern_call)
  : bool :=
  match c with
  | ReleaseStringUTFChars j' chars' => (j' =? j) && String.eqb chars' chars
  | _ => false
  end.

(** The calls a generation may make, with the arguments the shim fixes. *)
Definition generate_call (c : extern_call) : bool :=
  match c with
  | NewStringUTF _ | GetStringUTFChars _ | ReleaseStringUTFChars _ _
  | llama_free _ | llama_context_default_params
  | llama_n_ctx _ | llama_n_batch _ | llama_model_get_vocab _
  | llama_batch_get_one _ _ | llama_decode _ _
  | llama_vocab_is_eog _ _ => true
  | llama_new_context_with_model _ p =>
      (n_ctx p =? 2048) && (n_batch p =? 512)
      && (n_threads p =? 4) && (n_threads_batch p =? 4)
  | llama_tokenize _ _ _ _ _ add_special parse_special =>
      add_special && parse_special
  | llama_sampler_sample _ _ idx => idx =? -1
  | llama_token_to_piece _ _ len lstrip special =>
      (len =? 256) && (lstrip =? 0) && special
  | _ => false
  end.

(** The bytes of a string. *)
Definition bytes (s : string) : list ascii := list_ascii_of_string s.

(** What a computation returns, when it returns, satisfies [Q]. *)
Definition returns {A} (Q : A -> Prop) (m : M A) : Prop :=
  forall s a, fst (m s) = Returned a -> Q a.

(** [text] is [result] followed by at most [k] bytes. *)
Definition extends_by (k : nat) (result text : string) : Prop :=
  exists suffix,
    text = (result ++ suffix)%string /\ (String.length suffix <= k)%nat.

(** The calls an initialisation may make, with the arguments the shim
    fixes. *)
Definition init_call (c : extern_call) : bool :=
  match c with
  | GetStringUTFChars _ | ReleaseStringUTFChars _ _
  | ftell _ | fclose _
  | llama_backend_init | llama_backend_free
  | llama_model_default_params | llama_model_free _
  | llama_context_default_params
  | llama_sampler_chain_default_params | llama_sampler_chain_init _
  | llama_sampler_chain_add _ _ | operator_new _ => true
  | fopen _ mode => String.eqb mode "rb"
  | fseek _ offset whence => (offset =? 0) && (whence =? SEEK_END)
  | llama_model_load_from_file _ p =>
      (n_gpu_layers p =? 0) && use_mmap p && negb (use_mlock p)
  | llama_init_from_model _ p =>
      (n_ctx p =? 2048) && (n_batch p =? 512)
      && (n_threads p =? 4) && (n_threads_batch p =? 4)
  | llama_sampler_init_temp t => Qeq_bool t (8 # 10)
  | llama_sampler_init_top_k k => k =? 40
  | llama_sampler_init_top_p p min_keep => Qeq_bool p (95 # 100) && (min_keep =? 1)
  | llama_sampler_init_dist seed => seed =? LLAMA_DEFAULT_SEED
  | _ => false
  end.

Definition is_batch (c : extern_call) : bool :=
  match c with llama_batch_get_one _ _ => true | _ => false end.

(** Every batch among the calls [calls], made after the history [t], is
    built from one token, declared as one, and that token is the answer of
    the last [llama_sampler_sample] before it; [sample] is that answer for
    a sampling in [t] that no batch has used yet.  A sampled token goes
    into one batch at most. *)
Fixpoint batches_of_samples (lib : oracle) (t : list extern_call)
    (sample : option Z) (calls : list extern_call) : bool :=
  match calls with
  | [] => true
  | c :: rest =>
      match c with
      | llama_sampler_sample smpl c' idx =>
          batches_of_samples lib (t ++ [c])
            (Some (lib t (llama_sampler_sample smpl c' idx))) rest
      | llama_batch_get_one tokens n_tokens =>
          match sample, tokens with
          | Some token, [token'] => (token' =? token) && (n_tokens =? 1)
          | _, _ => false
          end
          && batches_of_samples lib (t ++ [c]) None rest
      | _ => batches_of_samples lib (t ++ [c]) sample rest
      end
  end.

(** The same library as [Sample.working], but every token is the piece of
    the three bytes [H], NUL, [i]. *)
Definition nul_in_piece : oracle := fun t c =>
  match c as c' return resp c' with
  | llama_token_to_piece _ _ _ _ _ =>
      (3, String "H" (String zero (String "i" EmptyString)))
  | c' => Sample.working t c'
  end.
(** ** Running the shim by hand *)

Lemma is_null_true p : is_null p = true <-> p = 0.
Proof. unfold is_null. apply Z.eqb_eq. Qed.

Lemma is_null_false p : is_null p = false <-> p <> 0.
Proof. unfold is_null. apply Z.eqb_neq. Qed.

Section Exec.
Context {A B C : Type}.

Lemma bind_ret (a : A) (k : A -> M B) s : bind (ret a) k s = k a s.
Proof. reflexivity. Qed.

Lemma bind_bind (m : M A) (k1 : A -> M B) (k2 : B -> M C) s :
  bind (bind m k1) k2 s = bind m (fun a => bind (k1 a) k2) s.
Proof. unfold bind. destruct (m s) as [[a| |] s']; reflexivity. Qed.

Lemma bind_field f handle w (k : ptr -> M B) s :
  heap s !! handle = Some w ->
  bind (field f handle) k s = k (f w) s.
Proof. intros H. unfold bind, field. rewrite H. reflexivity. Qed.

Lemma bind_assign upd handle w (k : unit -> M B) s :
  heap s !! handle = Some w ->
  bind (assign upd handle) k s =
  k tt {| heap := <[handle := upd w]> (heap s); trace := trace s |}.
Proof. intros H. unfold bind, assign. rewrite H. reflexivity. Qed.

End Exec.

Lemma field_run f handle w s :
  heap s !! handle = Some w -> field f handle s = (Returned (f w), s).
Proof. intros H. unfold field. rewrite H. reflexivity. Qed.

Lemma assign_run upd handle w s :
  heap s !! handle = Some w ->
  assign upd handle s =
  (Returned tt, {| heap := <[handle := upd w]> (heap s); trace := trace s |}).
Proof. intros H. unfold assign. rewrite H. reflexivity. Qed.

Ltac lookup := cbn [heap]; first [eassumption | apply lookup_insert_eq].

(** One step of the computation at the head of the goal, repeated. *)
Ltac exec :=
  repeat first
    [ rewrite bind_bind
    | rewrite bind_ret
    | match goal with
      | |- context [bind (call ?lib ?c) ?k ?s] =>
          change (bind (call lib c) k s)
            with (k (lib (trace s) c)
                    {| heap := heap s; trace := trace s ++ [c] |})
      end
    | erewrite bind_field by lookup
    | erewrite bind_assign by lookup
    | erewrite field_run by lookup
    | erewrite assign_run by lookup
    | match goal with
      | H : ?b = _ |- context [if ?b then _ else _] => rewrite H
      end
    | progress cbn [heap trace call ret with_ctx with_model with_sampler
                    model ctx sampler] ].

(** ** nativeDestroy *)

Lemma release_fields_run lib s handle w :
  heap s !! handle = Some w ->
  release_fields lib handle s =
    (Returned tt,
     {| heap := <[handle := null_wrapper]> (heap s);
        trace := trace s ++ frees w |}).
Proof.
  destruct s as [hp tr], w as [m c sm]; cbn [heap trace]. intros Hw.
  unfold release_fields, frees, null_wrapper; cbn [model ctx sampler].
  destruct (is_null sm) eqn:Hsm, (is_null c) eqn:Hc, (is_null m) eqn:Hm;
    exec; rewrite ?is_null_true in *; subst;
    rewrite ?insert_insert_eq, <- ?app_assoc, ?app_nil_r;
    try reflexivity.
  rewrite insert_id; auto.
Qed.

(** C10.  [nativeDestroy] with handle 0 does nothing.  With the address of
    a wrapper it frees the sampler, the context and the model, in that
    order and each only when it is not null, leaving every field of the
    wrapper null; then it deletes the wrapper and frees the backend.  No
    call is made on a null field. *)
Theorem nativeDestroy_frees_non_null_fields lib s handle :
  (handle = 0 -> nativeDestroy lib handle s = (Returned tt, s)) /\
  (forall w, handle <> 0 -> heap s !! handle = Some w ->
     release_fields lib handle s =
       (Returned tt,
        {| heap := <[handle := null_wrapper]> (heap s);
           trace := trace s ++ frees w |}) /\
     nativeDestroy lib handle s =
       (Returned tt,
        {| heap := delete handle (heap s);
           trace := trace s ++ frees w
                      ++ [operator_delete handle; llama_backend_free] |})).
Proof.
  split; [intros ->; reflexivity|].
  intros w Hh Hw. split; [now apply release_fields_run|].
  unfold nativeDestroy. apply is_null_false in Hh. rewrite Hh.
  unfold bind at 1. rewrite (release_fields_run lib s handle w Hw).
  unfold bind, delete_wrapper. cbn [heap trace]. rewrite lookup_insert_eq.
  cbn [call heap trace]. rewrite delete_insert_eq.
  destruct (lib _ llama_backend_free). rewrite <- !app_assoc. reflexivity.
Qed.

(** A wrapper whose context is null is destroyed without a call to
    [llama_free]. *)
Lemma nativeDestroy_frees_non_null_fields_witness :
  nativeDestroy Sample.working 500
    {| heap := {[ 500 := with_ctx 0 Sample.wrapper ]}; trace := [] |} =
  (Returned tt,
   {| heap := delete 500 {[ 500 := with_ctx 0 Sample.wrapper ]};
      trace := [llama_sampler_free 400; llama_model_free 200;
                operator_delete 500; llama_backend_free] |}).
Proof.
  refine (proj2 (proj2 (nativeDestroy_frees_non_null_fields Sample.working
            {| heap := {[ 500 := with_ctx 0 Sample.wrapper ]}; trace := [] |}
            500) (with_ctx 0 Sample.wrapper) _ _)).
  - discriminate.
  - apply lookup_singleton_eq.
Defined.

(** ** What a computation leaves alone *)

Create HintDb shim discriminated.

Section Frame.
Context {A B : Type}.

Lemma grows_ret (a : A) : grows (ret a).
Proof. intros s. exists []. cbn. now rewrite app_nil_r. Qed.

Lemma grows_throw e : grows (@throw A e).
Proof. intros s. exists []. cbn. now rewrite app_nil_r. Qed.

Lemma grows_undefined : grows (@undefined A).
Proof. intros s. exists []. cbn. now rewrite app_nil_r. Qed.

Lemma grows_bind (m : M A) (k : A -> M B) :
  grows m -> (forall a, grows (k a)) -> grows (bind m k).
Proof.
  intros Hm Hk s. unfold bind. destruct (Hm s) as [a1 H1].
  destruct (m s) as [[a| |] s']; cbn [snd] in *; eauto.
  destruct (Hk a s') as [a2 H2]. exists (a1 ++ a2).
  now rewrite H2, H1, app_assoc.
Qed.

Lemma keeps_heap_ret (a : A) : keeps_heap (ret a).
Proof. now intros s. Qed.

Lemma keeps_heap_throw e : keeps_heap (@throw A e).
Proof. now intros s. Qed.

Lemma keeps_heap_undefined : keeps_heap (@undefined A).
Proof. now intros s. Qed.

Lemma keeps_heap_bind (m : M A) (k : A -> M B) :
  keeps_heap m -> (forall a, keeps_heap (k a)) -> keeps_heap (bind m k).
Proof.
  intros Hm Hk s. unfold bind. specialize (Hm s).
  destruct (m s) as [[a| |] s']; cbn [snd] in *; auto.
  now rewrite Hk.
Qed.

End Frame.

Lemma grows_call lib c : grows (call lib c).
Proof. intros s. now exists [c]. Qed.

Lemma keeps_heap_call lib c : keeps_heap (call lib c).
Proof. now intros s. Qed.

Lemma grows_field f handle : grows (field f handle).
Proof.
  intros s. exists []. unfold field.
  destruct (heap s !! handle); cbn; now rewrite app_nil_r.
Qed.

Lemma keeps_heap_field f handle : keeps_heap (field f handle).
Proof. intros s. unfold field. now destruct (heap s !! handle). Qed.

Lemma grows_assign upd handle : grows (assign upd handle).
Proof.
  intros s. exists []. unfold assign.
  destruct (heap s !! handle); cbn; now rewrite app_nil_r.
Qed.

Lemma grows_int z : grows (int z).
Proof. unfold int. destruct (in_int z); [apply grows_ret | apply grows_undefined]. Qed.

Lemma keeps_heap_int z : keeps_heap (int z).
Proof. unfold int. now destruct (in_int z). Qed.

Lemma grows_string_reserve n : grows (string_reserve n).
Proof.
  unfold string_reserve.
  destruct (n <? 0); [apply grows_throw | apply grows_ret].
Qed.

Lemma keeps_heap_string_reserve n : keeps_heap (string_reserve n).
Proof. unfold string_reserve. now destruct (n <? 0). Qed.

Lemma grows_string_append r b n : grows (string_append r b n).
Proof.
  unfold string_append.
  destruct (_ && _); [apply grows_ret | apply grows_undefined].
Qed.

Lemma keeps_heap_string_append r b n : keeps_heap (string_append r b n).
Proof. unfold string_append. now destruct (_ && _). Qed.

Lemma grows_new_wrapper lib w : grows (new_wrapper lib w).
Proof.
  intros s. exists [operator_new w]. unfold new_wrapper, bind. cbn.
  now destruct (is_null _).
Qed.

Lemma grows_delete_wrapper lib handle : grows (delete_wrapper lib handle).
Proof.
  intros s. unfold delete_wrapper. destruct (heap s !! handle); cbn.
  - now exists [operator_delete handle].
  - exists []. now rewrite app_nil_r.
Qed.

#[export] Hint Resolve grows_ret grows_throw grows_undefined grows_call
  grows_field grows_assign grows_int grows_string_reserve
  grows_string_append grows_new_wrapper grows_delete_wrapper
  keeps_heap_ret keeps_heap_throw keeps_heap_undefined keeps_heap_call
  keeps_heap_field keeps_heap_int keeps_heap_string_reserve
  keeps_heap_string_append : shim.

(** Goes through a computation, one construct at a time. *)
Ltac structural :=
  repeat match goal with
    | |- grows (bind _ _) => apply grows_bind; [|intro]
    | |- keeps_heap (bind _ _) => apply keeps_heap_bind; [|intro]
    | |- @grows _ (call ?l ?c) => exact (grows_call l c)
    | |- @keeps_heap _ (call ?l ?c) => exact (keeps_heap_call l c)
    | |- grows (let _ := _ in _) => cbv zeta
    | |- keeps_heap (let _ := _ in _) => cbv zeta
    | |- grows (if ?b then _ else _) => destruct b
    | |- keeps_heap (if ?b then _ else _) => destruct b
    | |- grows (match ?x with _ => _ end) => destruct x
    | |- keeps_heap (match ?x with _ => _ end) => destruct x
    | |- _ => solve [auto with shim]
    end.

Lemma grows_generation_loop lib handle vocab n :
  forall result n_decoded,
    grows (generation_loop lib handle vocab n result n_decoded).
Proof.
  induction n as [|n IH]; intros; cbn [generation_loop]; structural.
Qed.

Lemma keeps_heap_generation_loop lib handle vocab n :
  forall result n_decoded,
    keeps_heap (generation_loop lib handle vocab n result n_decoded).
Proof.
  induction n as [|n IH]; intros; cbn [generation_loop]; structural.
Qed.

#[export] Hint Resolve grows_generation_loop keeps_heap_generation_loop : shim.

Lemma grows_decode_and_generate lib handle j prompt vocab n max_tokens :
  grows (decode_and_generate lib handle j prompt vocab n max_tokens).
Proof. unfold decode_and_generate. structural. Qed.

Lemma keeps_heap_decode_and_generate lib handle j prompt vocab n max_tokens :
  keeps_heap (decode_and_generate lib handle j prompt vocab n max_tokens).
Proof. unfold decode_and_generate. structural. Qed.

#[export] Hint Resolve grows_decode_and_generate
  keeps_heap_decode_and_generate : shim.

Lemma grows_tokenize_and_generate lib handle j max_tokens :
  grows (tokenize_and_generate lib handle j max_tokens).
Proof. unfold tokenize_and_generate. structural. Qed.

Lemma keeps_heap_tokenize_and_generate lib handle j max_tokens :
  keeps_heap (tokenize_and_generate lib handle j max_tokens).
Proof. unfold tokenize_and_generate. structural. Qed.

Lemma grows_log_context_recreated lib rtl handle :
  grows (log_context_recreated lib rtl handle).
Proof. unfold log_context_recreated. structural. Qed.

Lemma keeps_heap_log_context_recreated lib rtl handle :
  keeps_heap (log_context_recreated lib rtl handle).
Proof. unfold log_context_recreated. structural. Qed.

#[export] Hint Resolve grows_tokenize_and_generate
  keeps_heap_tokenize_and_generate grows_log_context_recreated
  keeps_heap_log_context_recreated : shim.

Lemma grows_create_sampler lib : grows (create_sampler lib).
Proof. unfold create_sampler. structural. Qed.

#[export] Hint Resolve grows_create_sampler : shim.

(** ** nativeGenerate: the first checks and the new context *)

Lemma nativeGenerate_no_model lib rtl s handle j max_tokens w :
  heap s !! handle = Some w -> model w = 0 ->
  nativeGenerate lib rtl handle j max_tokens s =
    (Returned (lib (trace s) (NewStringUTF EmptyString)),
     {| heap := heap s; trace := trace s ++ [NewStringUTF EmptyString] |}).
Proof.
  intros Hw Hm. unfold nativeGenerate.
  destruct (is_null handle) eqn:Hh; [reflexivity|].
  exec. rewrite Hm. reflexivity.
Qed.

(** C9.  With handle 0, or with a wrapper whose model is null,
    [nativeGenerate] returns the empty string at once: the only call it
    makes is the [NewStringUTF] that builds the returned string, no call
    reaches the llama library, and the heap, the wrapper with it, is as it
    was. *)
Theorem nativeGenerate_null_handle_or_model lib rtl s handle j max_tokens :
  (handle = 0 \/ exists w, heap s !! handle = Some w /\ model w = 0) ->
  nativeGenerate lib rtl handle j max_tokens s =
    (Returned (lib (trace s) (NewStringUTF EmptyString)),
     {| heap := heap s; trace := trace s ++ [NewStringUTF EmptyString] |}).
Proof.
  intros [-> | (w & Hw & Hm)]; [reflexivity|].
  now apply (nativeGenerate_no_model lib rtl s handle j max_tokens w).
Qed.

Lemma nativeGenerate_null_handle_or_model_witness :
  nativeGenerate Sample.working false 500 1 16
    {| heap := {[ 500 := with_model 0 Sample.wrapper ]}; trace := [] |} =
  (Returned 900,
   {| heap := {[ 500 := with_model 0 Sample.wrapper ]};
      trace := [NewStringUTF EmptyString] |}).
Proof.
  refine (nativeGenerate_null_handle_or_model Sample.working false
            {| heap := {[ 500 := with_model 0 Sample.wrapper ]}; trace := [] |}
            500 1 16 _).
  right. exists (with_model 0 Sample.wrapper). split.
  - apply lookup_singleton_eq.
  - reflexivity.
Defined.

Lemma recreate_context_run lib s handle w :
  heap s !! handle = Some w ->
  recreate_context lib handle s =
    (Returned tt,
     {| heap := <[handle := with_ctx (recreated_ctx lib s w) w]> (heap s);
        trace := trace s ++ recreate_calls lib s w |}).
Proof.
  destruct s as [hp tr]; cbn [heap trace]. intros Hw.
  unfold recreate_context, recreated_ctx, recreate_calls, recreate_params,
    free_old; cbn [heap trace].
  destruct (is_null (ctx w)) eqn:Hc; exec;
    rewrite ?insert_insert_eq, <- ?app_assoc, ?app_nil_r; reflexivity.
Qed.

(** C1.  When the handle is the address of a wrapper with a model,
    [nativeGenerate] starts by replacing the context: it frees the old one
    if there is one, asks the library for a context of the model with
    [n_ctx = 2048], [n_batch = 512], [n_threads = 4], and stores the answer
    in the wrapper, where it stays until the call ends.  These are the first
    calls of the run, so they come before any tokenization or decoding.
    When the library answers null, the call creates the string of line 195,
    returns it, and does nothing else. *)
Theorem nativeGenerate_recreates_context lib rtl s handle j max_tokens w :
  handle <> 0 -> heap s !! handle = Some w -> model w <> 0 ->
  let params := recreate_params lib s w in
  let new_ctx := recreated_ctx lib s w in
  let run := nativeGenerate lib rtl handle j max_tokens s in
  (n_ctx params = 2048 /\ n_batch params = 512 /\ n_threads params = 4) /\
  (exists rest, trace (snd run) = trace s ++ recreate_calls lib s w ++ rest) /\
  heap (snd run) = <[handle := with_ctx new_ctx w]> (heap s) /\
  (new_ctx = 0 ->
   run = (Returned (lib (trace s ++ recreate_calls lib s w)
                        (NewStringUTF context_failure_message)),
          {| heap := <[handle := with_ctx 0 w]> (heap s);
             trace := trace s ++ recreate_calls lib s w
                        ++ [NewStringUTF context_failure_message] |})).
Proof.
  intros Hh Hw Hm params new_ctx run.
  split; [now repeat split|].
  apply is_null_false in Hh, Hm.
  assert (Hrun : run =
    bind (field ctx handle) (fun c =>
      if is_null c then call lib (NewStringUTF context_failure_message)
      else bind (log_context_recreated lib rtl handle) (fun _ =>
             tokenize_and_generate lib handle j max_tokens))
      {| heap := <[handle := with_ctx new_ctx w]> (heap s);
         trace := trace s ++ recreate_calls lib s w |}).
  { subst run. unfold nativeGenerate. rewrite Hh. exec.
    unfold bind at 1. rewrite (recreate_context_run lib s handle w Hw).
    exec. reflexivity. }
  rewrite Hrun. clear Hrun run. exec.
  destruct (is_null new_ctx) eqn:Hn.
  - apply is_null_true in Hn. rewrite Hn. cbn [call snd heap trace].
    rewrite <- app_assoc. repeat split; eauto.
  - set (rest := bind _ _).
    assert (Hg : grows rest) by (subst rest; structural).
    assert (Hk : keeps_heap rest) by (subst rest; structural).
    repeat split.
    + destruct (Hg {| heap := <[handle := with_ctx new_ctx w]> (heap s);
                      trace := trace s ++ recreate_calls lib s w |})
        as [added Ha].
      exists added. rewrite Ha. cbn [trace]. now rewrite app_assoc.
    + now rewrite Hk.
    + intros H0. apply is_null_false in Hn. contradiction.
Qed.

(** The sample library answers 301: the context 300 of the wrapper is
    freed and replaced by 301. *)
Lemma nativeGenerate_recreates_context_witness :
  heap (snd (nativeGenerate Sample.working false 500 1 2 Sample.initial))
  = <[500 := with_ctx 301 Sample.wrapper]> (heap Sample.initial).
Proof.
  refine (proj1 (proj2 (proj2 (nativeGenerate_recreates_context
            Sample.working false Sample.initial 500 1 2 Sample.wrapper
            _ _ _)))).
  - discriminate.
  - apply lookup_singleton_eq.
  - discriminate.
Defined.

(** ** nativeInit *)

Section InitRuns.
Variables (lib : oracle) (s : state) (j : jstring) (path : string).
Hypothesis Hpath : lib (trace s) (GetStringUTFChars j) = Some path.

Local Abbreviation file := (init_file lib s j path).
Local Abbreviation m := (init_model lib s j path).
Local Abbreviation c := (init_ctx lib s j path).

Lemma nativeInit_no_file :
  file = 0 ->
  nativeInit lib j s =
    (Returned 0,
     {| heap := heap s;
        trace := trace s ++ open_calls j path
                   ++ [ReleaseStringUTFChars j path] |}).
Proof.
  intros Hf. unfold nativeInit. exec. rewrite Hpath. exec.
  rewrite <- !app_assoc. cbn [app].
  change (lib _ (fopen path "rb")) with file. rewrite Hf.
  cbn [is_null Z.eqb]. exec. rewrite <- !app_assoc. reflexivity.
Qed.

Lemma nativeInit_past_file (Hf : file <> 0) :
  nativeInit lib j s =
    (if is_null m
     then call lib llama_backend_free;;; ret 0
     else
       ctx_defaults <- call lib llama_context_default_params;;
       ctx <- call lib (llama_init_from_model m
                          (context_params ctx_defaults));;
       if is_null ctx
       then call lib (llama_model_free m);;;
            call lib llama_backend_free;;; ret 0
       else
         sampler <- create_sampler lib;;
         new_wrapper lib {| model := m; ctx := ctx; sampler := sampler |})
      {| heap := heap s; trace := trace s ++ load_calls lib s j path |}.
Proof.
  apply is_null_false in Hf. unfold nativeInit. exec. rewrite Hpath. exec.
  rewrite <- !app_assoc. cbn [app].
  change (lib _ (fopen path "rb")) with file. rewrite Hf. exec.
  rewrite <- !app_assoc. reflexivity.
Qed.

Lemma nativeInit_no_model :
  file <> 0 -> m = 0 ->
  nativeInit lib j s =
    (Returned 0,
     {| heap := heap s;
        trace := trace s ++ load_calls lib s j path
                   ++ [llama_backend_free] |}).
Proof.
  intros Hf Hm. rewrite (nativeInit_past_file Hf), Hm.
  cbn [is_null Z.eqb]. exec. rewrite <- !app_assoc. reflexivity.
Qed.

Lemma nativeInit_no_context :
  file <> 0 -> m <> 0 -> c = 0 ->
  nativeInit lib j s =
    (Returned 0,
     {| heap := heap s;
        trace := trace s ++ context_calls lib s j path
                   ++ [llama_model_free m; llama_backend_free] |}).
Proof.
  intros Hf Hm Hc. rewrite (nativeInit_past_file Hf).
  apply is_null_false in Hm. rewrite Hm. exec.
  rewrite <- !app_assoc. cbn [app].
  change (lib _ (llama_init_from_model m _)) with c. rewrite Hc.
  cbn [is_null Z.eqb]. exec. rewrite <- !app_assoc. reflexivity.
Qed.

Lemma nativeInit_success :
  file <> 0 -> m <> 0 -> c <> 0 ->
  let calls := init_calls lib s j path in
  let address :=
    lib (trace s ++ removelast calls)
        (operator_new (init_wrapper lib s j path)) in
  nativeInit lib j s =
    if is_null address
    then (Thrown alloc_failure,
          {| heap := heap s; trace := trace s ++ calls |})
    else (Returned address,
          {| heap := <[address := init_wrapper lib s j path]> (heap s);
             trace := trace s ++ calls |}).
Proof.
  intros Hf Hm Hc. rewrite (nativeInit_past_file Hf).
  apply is_null_false in Hm, Hc. rewrite Hm. exec.
  rewrite <- !app_assoc. cbn [app].
  change (lib _ (llama_init_from_model m _)) with c. rewrite Hc.
  unfold create_sampler, new_wrapper. exec. rewrite <- !app_assoc.
  cbn [app].
  match goal with
  | |- (if is_null ?X then _ else _) _ = (if is_null ?Y then _ else _) =>
      change Y with X; destruct (is_null X)
  end; reflexivity.
Qed.

End InitRuns.

(** C3.  [nativeInit] opens the file before anything else: after reading
    the path from the JNI string, its first call is [fopen], whatever
    happens later.  When [fopen] gives a null pointer, [nativeInit] releases
    the path and returns 0; it has not called the llama library, so no
    backend is initialised and no model is loaded, and the heap is as it
    was. *)
Theorem nativeInit_unopenable_file (lib : oracle) s j path :
  lib (trace s) (GetStringUTFChars j) = Some path ->
  (exists rest,
     trace (snd (nativeInit lib j s)) = trace s ++ open_calls j path ++ rest) /\
  (init_file lib s j path = 0 ->
   nativeInit lib j s =
     (Returned 0,
      {| heap := heap s;
         trace := trace s ++ open_calls j path
                    ++ [ReleaseStringUTFChars j path] |})).
Proof.
  intros Hpath. split; [|now apply nativeInit_no_file].
  destruct (Z.eq_dec (init_file lib s j path) 0) as [Hf|Hf].
  - rewrite (nativeInit_no_file lib s j path Hpath Hf). now eexists.
  - rewrite (nativeInit_past_file lib s j path Hpath Hf).
    set (rest := if is_null _ then _ else _).
    assert (Hg : grows rest) by (subst rest; structural).
    destruct (Hg {| heap := heap s;
                    trace := trace s ++ load_calls lib s j path |})
      as [added Ha].
    rewrite Ha. cbn [trace]. unfold load_calls, probe_calls.
    rewrite <- !app_assoc. now eexists.
Qed.

Lemma nativeInit_unopenable_file_witness :
  nativeInit Sample.no_file 1 Sample.initial =
  (Returned 0,
   {| heap := heap Sample.initial;
      trace := [GetStringUTFChars 1; fopen "hello" "rb";
                ReleaseStringUTFChars 1 "hello"] |}).
Proof.
  refine (proj2 (nativeInit_unopenable_file Sample.no_file Sample.initial
                   1 "hello" _) _); reflexivity.
Defined.

(** C4.  The handle [nativeInit] returns is 0 exactly when the run fails,
    that is when the file cannot be opened, the model cannot be loaded or
    the context cannot be created; a failed run leaves the heap as it was,
    frees the backend when the model is missing, and frees the model and
    then the backend when the context is missing.  A run that does not fail
    allocates a wrapper for the model, the context and the sampler chain it
    got, the model and the context not null, and returns its address, which
    is not 0; if the allocation fails, the run ends with the exception of
    [operator new] and returns nothing. *)
Theorem nativeInit_handle (lib : oracle) s j path :
  lib (trace s) (GetStringUTFChars j) = Some path ->
  let file := init_file lib s j path in
  let m := init_model lib s j path in
  let c := init_ctx lib s j path in
  let run := nativeInit lib j s in
  (forall handle, fst run = Returned handle ->
     (handle = 0 <-> init_fails lib s j path)) /\
  (init_fails lib s j path ->
     fst run = Returned 0 /\ heap (snd run) = heap s) /\
  (file <> 0 -> m = 0 ->
     trace (snd run) =
       trace s ++ load_calls lib s j path ++ [llama_backend_free]) /\
  (file <> 0 -> m <> 0 -> c = 0 ->
     trace (snd run) =
       trace s ++ context_calls lib s j path
         ++ [llama_model_free m; llama_backend_free]) /\
  (file <> 0 -> m <> 0 -> c <> 0 ->
     exists calls,
       trace (snd run) =
         trace s ++ calls ++ [operator_new (init_wrapper lib s j path)] /\
       let address :=
         lib (trace s ++ calls) (operator_new (init_wrapper lib s j path)) in
       if is_null address then fst run = Thrown alloc_failure
       else fst run = Returned address /\
            address <> 0 /\
            heap (snd run) = <[address := init_wrapper lib s j path]> (heap s)).
Proof.
  intros Hpath file m c run.
  assert (Hfail : init_fails lib s j path ->
                  fst run = Returned 0 /\ heap (snd run) = heap s).
  { intros [Hf | [[Hf Hm] | (Hf & Hm & Hc)]]; subst run.
    - now rewrite (nativeInit_no_file lib s j path Hpath Hf).
    - now rewrite (nativeInit_no_model lib s j path Hpath Hf Hm).
    - now rewrite (nativeInit_no_context lib s j path Hpath Hf Hm Hc). }
  assert (Hok : file <> 0 -> m <> 0 -> c <> 0 ->
     exists calls,
       trace (snd run) =
         trace s ++ calls ++ [operator_new (init_wrapper lib s j path)] /\
       let address :=
         lib (trace s ++ calls) (operator_new (init_wrapper lib s j path)) in
       if is_null address then fst run = Thrown alloc_failure
       else fst run = Returned address /\
            address <> 0 /\
            heap (snd run) = <[address := init_wrapper lib s j path]> (heap s)).
  { intros Hf Hm Hc.
    pose proof (nativeInit_success lib s j path Hpath Hf Hm Hc) as E.
    cbv zeta in E. subst run. rewrite E. clear E.
    match goal with
    | |- context [removelast ?l] => exists (removelast l)
    end.
    cbv zeta.
    match goal with
    | |- context [is_null ?a] => destruct (is_null a) eqn:Ha
    end; cbn [fst snd heap trace].
    - split; [reflexivity | reflexivity].
    - apply is_null_false in Ha. repeat split; auto. }
  repeat split; auto.
  - intros ->.
    destruct (Z.eq_dec file 0) as [Hf|Hf]; [now left|].
    destruct (Z.eq_dec m 0) as [Hm|Hm]; [right; now left|].
    destruct (Z.eq_dec c 0) as [Hc|Hc]; [right; now right|].
    exfalso. destruct (Hok Hf Hm Hc) as (calls & _ & Ha). cbv zeta in Ha.
    destruct (is_null _) eqn:E.
    + rewrite H in Ha. discriminate.
    + destruct Ha as (Hr & Hn & _). rewrite H in Hr.
      injection Hr as Hr. congruence.
  - intros Hfails. destruct (Hfail Hfails) as [Hr _].
    rewrite H in Hr. now injection Hr.
  - now apply Hfail.
  - now apply Hfail.
  - intros Hf Hm. subst run.
    now rewrite (nativeInit_no_model lib s j path Hpath Hf Hm).
  - intros Hf Hm Hc. subst run.
    now rewrite (nativeInit_no_context lib s j path Hpath Hf Hm Hc).
Qed.

(** With the sample library the run does not fail, and [nativeInit] returns
    the address 500 that [operator new] gave; when no context can be
    created it returns 0. *)
Lemma nativeInit_handle_witness :
  (500 = 0 <-> init_fails Sample.working Sample.empty 1 "hello") /\
  fst (nativeInit Sample.no_context 1 Sample.empty) = Returned 0.
Proof.
  split.
  - refine (proj1 (nativeInit_handle Sample.working Sample.empty 1 "hello" _)
              500 _); reflexivity.
  - refine (proj1 (proj1 (proj2 (nativeInit_handle Sample.no_context
              Sample.empty 1 "hello" _)) _)); [reflexivity|].
    right. right. repeat split; discriminate.
Defined.

(** C5.  A run of [nativeInit] that returns a handle other than 0 has made
    exactly the calls of [init_calls], in that order: after the file check,
    the backend is initialised, then the model is loaded from the file,
    then the context is created from that model, then the sampler chain is
    built and given the temperature, top-k, top-p and seeded distribution
    samplers in this order; the wrapper is allocated last, for that model,
    context and chain, and its address is the handle.  Every argument is
    the answer of the call that produced it: the file that is measured and
    closed is the one [fopen] gave, the context is created from the model
    that was loaded, each sampler added to the chain is the one the call
    just before created, and the chain they are added to is the one stored
    in the wrapper. *)
Theorem nativeInit_call_sequence (lib : oracle) s j handle :
  fst (nativeInit lib j s) = Returned handle -> handle <> 0 ->
  exists path,
    lib (trace s) (GetStringUTFChars j) = Some path /\
    let calls := init_calls lib s j path in
    let w := init_wrapper lib s j path in
    trace (snd (nativeInit lib j s)) = trace s ++ calls /\
    handle = lib (trace s ++ removelast calls) (operator_new w) /\
    heap (snd (nativeInit lib j s)) = <[handle := w]> (heap s).
Proof.
  intros Hr Hh.
  destruct (lib (trace s) (GetStringUTFChars j)) as [path|] eqn:Hpath.
  2:{ unfold nativeInit in Hr. revert Hr. exec. rewrite Hpath. discriminate. }
  destruct (Z.eq_dec (init_file lib s j path) 0) as [Hf|Hf].
  { rewrite (nativeInit_no_file lib s j path Hpath Hf) in Hr.
    injection Hr as Hr. congruence. }
  destruct (Z.eq_dec (init_model lib s j path) 0) as [Hm|Hm].
  { rewrite (nativeInit_no_model lib s j path Hpath Hf Hm) in Hr.
    injection Hr as Hr. congruence. }
  destruct (Z.eq_dec (init_ctx lib s j path) 0) as [Hc|Hc].
  { rewrite (nativeInit_no_context lib s j path Hpath Hf Hm Hc) in Hr.
    injection Hr as Hr. congruence. }
  pose proof (nativeInit_success lib s j path Hpath Hf Hm Hc) as E.
  cbv zeta in E. rewrite E in *. clear E.
  exists path. split; [reflexivity|]. cbv zeta.
  destruct (is_null _) eqn:Ha; cbn [fst snd heap trace] in *.
  - discriminate.
  - injection Hr as <-. repeat split.
Qed.

(** With the sample library: the samplers 401, 402, 403 and 404 that the
    four creations give are added, in this order, to the chain 400, which
    is the one in the wrapper. *)
Lemma nativeInit_call_sequence_witness :
  trace (snd (nativeInit Sample.working 1 Sample.empty)) =
    [ GetStringUTFChars 1;
      fopen "hello" "rb";
      fseek 100 0 SEEK_END;
      ftell 100;
      fclose 100;
      llama_backend_init;
      llama_model_default_params;
      llama_model_load_from_file "hello"
        {| n_gpu_layers := 0; use_mmap := true; use_mlock := false;
           model_other := 7 |};
      ReleaseStringUTFChars 1 "hello";
      llama_context_default_params;
      llama_init_from_model 200
        {| n_ctx := 2048; n_batch := 512; n_threads := 4;
           n_threads_batch := 4; ctx_other := 9 |};
      llama_sampler_chain_default_params;
      llama_sampler_chain_init (ChainParams 1);
      llama_sampler_init_temp (8 # 10);
      llama_sampler_chain_add 400 401;
      llama_sampler_init_top_k 40;
      llama_sampler_chain_add 400 402;
      llama_sampler_init_top_p (95 # 100) 1;
      llama_sampler_chain_add 400 403;
      llama_sampler_init_dist LLAMA_DEFAULT_SEED;
      llama_sampler_chain_add 400 404;
      operator_new {| model := 200; ctx := 300; sampler := 400 |} ].
Proof.
  destruct (nativeInit_call_sequence Sample.working Sample.empty 1 500)
    as (path & Hpath & H & _).
  - reflexivity.
  - discriminate.
  - injection Hpath as <-. exact H.
Defined.

(** ** nativeGenerate: failures *)

(** C2, as the spec has it, fails: when [llama_decode] fails in the
    generation loop after a piece was added, the call returns that piece,
    which is neither the empty string nor the string of line 195. *)
Lemma nativeGenerate_loop_failure_returns_text :
  let lib := Sample.decode_fails_in_loop in
  let run := nativeGenerate lib false 500 1 16 Sample.initial in
  (exists t,
     trace (snd run) = t ++ [llama_decode 301 (Batch 1); NewStringUTF "Hi"] /\
     decodes t = 1%nat /\
     lib t (llama_decode 301 (Batch 1)) <> 0) /\
  returns_string lib run "Hi" /\
  ~ returns_string lib run EmptyString /\
  ~ returns_string lib run context_failure_message.
Proof.
  intros lib run.
  assert (E : exists t, trace (snd run) = t ++ [NewStringUTF "Hi"]).
  { exists (removelast (trace (snd run))). reflexivity. }
  repeat split.
  - eexists (removelast (removelast (trace (snd run)))).
    repeat split; vm_compute; discriminate || reflexivity.
  - exists (removelast (trace (snd run))). split; reflexivity.
  - intros (t & H & _). destruct E as (t' & E). rewrite E in H.
    apply app_inj_tail in H. destruct H as [_ H]. discriminate.
  - intros (t & H & _). destruct E as (t' & E). rewrite E in H.
    apply app_inj_tail in H. destruct H as [_ H]. discriminate.
Qed.

Lemma bind_field_none {B} f handle (k : ptr -> M B) s :
  heap s !! handle = None -> bind (field f handle) k s = (Undefined, s).
Proof. intros H. unfold bind, field. now rewrite H. Qed.

Lemma bind_int {B} z (k : Z -> M B) s :
  in_int z = true -> bind (int z) k s = k z s.
Proof. intros H. unfold int. now rewrite H. Qed.

Lemma bind_string_reserve {B} n (k : unit -> M B) s :
  0 <= n -> bind (string_reserve n) k s = k tt s.
Proof.
  intros H. unfold string_reserve.
  destruct (n <? 0) eqn:E; [apply Z.ltb_lt in E; lia | reflexivity].
Qed.

Lemma bind_string_append {B} result piece (k : string -> M B) s :
  piece_fits piece ->
  bind (string_append result (snd piece) (fst piece)) k s =
  k (result ++ piece_text piece)%string s.
Proof.
  intros [H1 H2]. unfold string_append.
  apply Z.leb_le in H1, H2. now rewrite H1, H2.
Qed.

(** ** nativeGenerate: what a call returns when no token was sampled *)

Lemma ends_plainly_empty lib : ends_plainly lib (call lib (NewStringUTF EmptyString)).
Proof.
  intros s r Hr. exists [], EmptyString. cbn in *. rewrite app_nil_r.
  injection Hr as <-. auto.
Qed.

Lemma ends_plainly_message lib :
  ends_plainly lib (call lib (NewStringUTF context_failure_message)).
Proof.
  intros s r Hr. exists [], context_failure_message. cbn in *.
  rewrite app_nil_r. injection Hr as <-. auto.
Qed.

Lemma ends_plainly_bind {A} lib (m : M A) (k : A -> M jstring) :
  grows m -> (forall a, ends_plainly lib (k a)) ->
  ends_plainly lib (bind m k).
Proof.
  intros Hm Hk s r. unfold bind. destruct (Hm s) as [a1 H1].
  destruct (m s) as [[a| |] s1]; cbn [fst snd] in *; try discriminate.
  intros Hr. destruct (Hk a s1 r Hr) as (a2 & text & Ht & Hv & Hor).
  exists (a1 ++ a2), text. rewrite Ht, H1, Hv, H1. repeat split.
  - now rewrite <- !app_assoc.
  - now rewrite <- !app_assoc.
  - destruct Hor as [?|[?|Hs]]; auto. right. right.
    unfold sampled in *. rewrite existsb_app, Hs. apply orb_true_r.
Qed.

(** An iteration of the loop begins by sampling. *)
Lemma generation_loop_samples lib handle vocab n result n_decoded s g :
  fst (generation_loop lib handle vocab (S n) result n_decoded s)
    = Returned g ->
  exists added,
    trace (snd (generation_loop lib handle vocab (S n) result n_decoded s))
      = trace s ++ added /\
    sampled added = true.
Proof.
  cbn [generation_loop].
  destruct (heap s !! handle) as [w|] eqn:Hw.
  2:{ rewrite (bind_field_none _ _ _ _ Hw). discriminate. }
  exec. intros _.
  match goal with
  | |- context [snd (?m ?st)] =>
      assert (Hg : grows m) by structural;
      destruct (Hg st) as [added Ha]
  end.
  exists (llama_sampler_sample (sampler w) (ctx w) (-1)
          :: llama_vocab_is_eog vocab
               (lib (trace s)
                  (llama_sampler_sample (sampler w) (ctx w) (-1)))
          :: added).
  split; [|reflexivity].
  rewrite Ha. cbn [trace]. now rewrite <- !app_assoc.
Qed.

Lemma ends_plainly_loop lib handle vocab n :
  ends_plainly lib
    (generated <- generation_loop lib handle vocab n EmptyString 0;;
     call lib (NewStringUTF (c_str (fst generated)))).
Proof.
  destruct n as [|n].
  - intros s r Hr. exists [], EmptyString. cbn in *. rewrite app_nil_r.
    injection Hr as <-. auto.
  - intros s r. unfold bind.
    destruct (generation_loop lib handle vocab (S n) EmptyString 0 s)
      as [[g| |] s1] eqn:E; cbn [fst snd call trace]; try discriminate.
    intros Hr. injection Hr as <-.
    destruct (generation_loop_samples lib handle vocab n EmptyString 0 s g)
      as (added & Ha & Hs); [now rewrite E|].
    rewrite E in Ha. cbn [snd] in Ha.
    exists added, (c_str (fst g)). rewrite Ha, <- app_assoc. auto.
Qed.

Ltac plainly :=
  repeat match goal with
    | |- ends_plainly _ (bind (generation_loop _ _ _ _ _ _) _) =>
        apply ends_plainly_loop
    | |- ends_plainly _ (bind _ _) =>
        apply ends_plainly_bind; [structural | intro]
    | |- ends_plainly _ (let _ := _ in _) => cbv zeta
    | |- ends_plainly _ (if ?b then _ else _) => destruct b
    | |- ends_plainly _ (match ?x with _ => _ end) => destruct x
    | |- ends_plainly _ (call _ (NewStringUTF EmptyString)) =>
        apply ends_plainly_empty
    | |- ends_plainly _ (call _ (NewStringUTF context_failure_message)) =>
        apply ends_plainly_message
    end.

Lemma ends_plainly_decode_and_generate lib handle j prompt vocab n max_tokens :
  ends_plainly lib
    (decode_and_generate lib handle j prompt vocab n max_tokens).
Proof.
  unfold decode_and_generate. plainly.
Qed.

Lemma ends_plainly_tokenize_and_generate lib handle j max_tokens :
  ends_plainly lib (tokenize_and_generate lib handle j max_tokens).
Proof.
  unfold tokenize_and_generate. plainly.
  apply ends_plainly_decode_and_generate.
Qed.

Lemma grows_recreate_context lib handle : grows (recreate_context lib handle).
Proof. unfold recreate_context. structural. Qed.

Lemma ends_plainly_nativeGenerate lib rtl handle j max_tokens :
  ends_plainly lib (nativeGenerate lib rtl handle j max_tokens).
Proof.
  unfold nativeGenerate. destruct (is_null handle).
  - apply ends_plainly_empty.
  - apply ends_plainly_bind; [structural | intro].
    destruct (is_null a); [apply ends_plainly_empty|].
    apply ends_plainly_bind; [apply grows_recreate_context | intro].
    plainly. apply ends_plainly_tokenize_and_generate.
Qed.

(** Brings both sides of a run equation to the same form. *)
Ltac finish :=
  unfold returning, after; exec; rewrite <- ?app_assoc; cbn [app];
  reflexivity.

(** C2, amended.  Every failure [nativeGenerate] detects before the
    generation loop ends the call at once: the call returns the empty
    string for a null wrapper, a null model, a null prompt, a null
    vocabulary, a tokenization that gives no positive length and a prompt
    that [llama_decode] refuses, and the string of line 195 when the
    context cannot be recreated; after the failing call it only releases the
    prompt, where it holds it, and creates the returned string.  A failure
    in the generation loop, a negative answer of [llama_token_to_piece] or
    a non-zero answer of [llama_decode], ends the loop at once, and the call
    returns the text the loop has put together so far.  Nothing is tried
    again.

    The statement starts with the whole call: when it returns, its last
    call creates the returned string, and that string is empty or the one
    of line 195 unless the loop has sampled a token.  Then it follows the
    call through its parts: the checks of the wrapper, the model and the
    new context (lines 160-199); the prompt, the vocabulary and the length
    (lines 201-242); the decoding of the prompt (lines 246-347); one
    iteration of the loop (lines 349-386).  Each part is taken from any
    state in which the handle is the address of a wrapper, and either ends
    the call or goes on to the next part. *)
Theorem nativeGenerate_failures (lib : oracle) rtl handle j max_tokens :
  (forall s r,
     fst (nativeGenerate lib rtl handle j max_tokens s) = Returned r ->
     exists added text,
       trace (snd (nativeGenerate lib rtl handle j max_tokens s)) =
         trace s ++ added ++ [NewStringUTF text] /\
       r = lib (trace s ++ added) (NewStringUTF text) /\
       (text = EmptyString \/ text = context_failure_message \/
        sampled added = true)) /\
  (forall s, handle = 0 ->
     nativeGenerate lib rtl handle j max_tokens s = returning lib EmptyString s) /\
  (forall s w, handle <> 0 -> heap s !! handle = Some w ->
     let c := recreated_ctx lib s w in
     let s' := {| heap := <[handle := with_ctx c w]> (heap s);
                  trace := trace s ++ recreate_calls lib s w |} in
     (model w = 0 ->
        nativeGenerate lib rtl handle j max_tokens s = returning lib EmptyString s) /\
     (model w <> 0 -> c = 0 ->
        nativeGenerate lib rtl handle j max_tokens s =
          returning lib context_failure_message s') /\
     (model w <> 0 -> c <> 0 ->
        nativeGenerate lib rtl handle j max_tokens s =
          tokenize_and_generate lib handle j max_tokens
            (after s' (log_calls rtl c)))) /\
  (forall s w, heap s !! handle = Some w ->
     let get := GetStringUTFChars j in
     (lib (trace s) get = None ->
        tokenize_and_generate lib handle j max_tokens s =
          returning lib EmptyString (after s [get])) /\
     (forall prompt, lib (trace s) get = Some prompt ->
        let get_vocab := llama_model_get_vocab (model w) in
        let vocab := lib (trace s ++ [get]) get_vocab in
        let count :=
          llama_tokenize vocab prompt (strlen prompt) None 0 true true in
        let n := - fst (lib (trace s ++ [get; get_vocab]) count) in
        let release := ReleaseStringUTFChars j prompt in
        (vocab = 0 ->
           tokenize_and_generate lib handle j max_tokens s =
             returning lib EmptyString (after s [get; get_vocab; release])) /\
        (vocab <> 0 -> in_int n = true -> n <= 0 ->
           tokenize_and_generate lib handle j max_tokens s =
             returning lib EmptyString (after s [get; get_vocab; count; release])) /\
        (vocab <> 0 -> in_int n = true -> 0 < n ->
           tokenize_and_generate lib handle j max_tokens s =
             decode_and_generate lib handle j prompt vocab n max_tokens
               (after s [get; get_vocab; count])))) /\
  (forall s w prompt vocab n, heap s !! handle = Some w ->
     let ask := llama_n_ctx (ctx w) in
     let n_ctx := uint_to_int (lib (trace s) ask) in
     let buffer := repeat 0 (Z.to_nat n) in
     let fill :=
       llama_tokenize vocab prompt (strlen prompt) (Some buffer)
                      (Z.of_nat (List.length buffer)) true true in
     let tokens := overwrite buffer (snd (lib (trace s ++ [ask]) fill)) in
     let release := ReleaseStringUTFChars j prompt in
     let get_one :=
       llama_batch_get_one tokens (Z.of_nat (List.length tokens)) in
     let decode :=
       llama_decode (ctx w) (lib (trace s ++ [ask; fill; release]) get_one) in
     let decoded := lib (trace s ++ [ask; fill; release; get_one]) decode in
     let calls := [ask; fill; release; get_one; decode] in
     let limit := effective_limit n_ctx n max_tokens in
     limit_defined n_ctx n max_tokens ->
     (decoded <> 0 ->
        decode_and_generate lib handle j prompt vocab n max_tokens s =
          returning lib EmptyString (after s calls)) /\
     (decoded = 0 -> in_int (limit * 4) = true -> 0 <= limit ->
        decode_and_generate lib handle j prompt vocab n max_tokens s =
          bind (generation_loop lib handle vocab (Z.to_nat limit) EmptyString 0)
               (fun generated =>
                  call lib (NewStringUTF (c_str (fst generated))))
               (after s calls))) /\
  (forall s w vocab n result n_decoded, heap s !! handle = Some w ->
     let sample := llama_sampler_sample (sampler w) (ctx w) (-1) in
     let token := lib (trace s) sample in
     let is_eog := llama_vocab_is_eog vocab token in
     let to_piece := llama_token_to_piece vocab token 256 0 true in
     let piece := lib (trace s ++ [sample; is_eog]) to_piece in
     let get_one := llama_batch_get_one [token] 1 in
     let decode :=
       llama_decode (ctx w)
                    (lib (trace s ++ [sample; is_eog; to_piece]) get_one) in
     let decoded :=
       lib (trace s ++ [sample; is_eog; to_piece; get_one]) decode in
     let result' :=
       if 0 <? fst piece then (result ++ piece_text piece)%string
       else result in
     lib (trace s ++ [sample]) is_eog = false ->
     (fst piece < 0 ->
        generation_loop lib handle vocab (S n) result n_decoded s =
          (Returned (result, n_decoded), after s [sample; is_eog; to_piece])) /\
     (0 <= fst piece -> (0 < fst piece -> piece_fits piece) ->
      decoded <> 0 ->
        generation_loop lib handle vocab (S n) result n_decoded s =
          (Returned (result', n_decoded),
           after s [sample; is_eog; to_piece; get_one; decode])) /\
     (0 <= fst piece -> (0 < fst piece -> piece_fits piece) ->
      decoded = 0 ->
        generation_loop lib handle vocab (S n) result n_decoded s =
          generation_loop lib handle vocab n result' (n_decoded + 1)
            (after s [sample; is_eog; to_piece; get_one; decode]))).
Proof.
  repeat apply conj.
  - exact (ends_plainly_nativeGenerate lib rtl handle j max_tokens).
  - intros s ->. reflexivity.
  - intros s w Hh Hw c s'. apply is_null_false in Hh.
    assert (Hrun : is_null (model w) = false ->
      nativeGenerate lib rtl handle j max_tokens s =
      (if is_null c then call lib (NewStringUTF context_failure_message)
       else bind (log_context_recreated lib rtl handle) (fun _ =>
              tokenize_and_generate lib handle j max_tokens)) s').
    { intros Hm. unfold nativeGenerate. rewrite Hh. exec.
      unfold bind at 1. rewrite (recreate_context_run lib s handle w Hw).
      exec. reflexivity. }
    repeat apply conj.
    + intros Hm. now apply (nativeGenerate_no_model lib rtl s handle j
                               max_tokens w).
    + intros Hm Hc. apply is_null_false in Hm. rewrite (Hrun Hm), Hc.
      reflexivity.
    + intros Hm Hc. apply is_null_false in Hm, Hc. rewrite (Hrun Hm), Hc.
      unfold log_context_recreated, log_calls. subst s'.
      destruct rtl; exec; finish.
  - intros s w Hw. cbv zeta. split.
    + intros Hp. unfold tokenize_and_generate. exec. rewrite Hp. reflexivity.
    + intros prompt Hp. repeat apply conj.
      * intros Hv. unfold tokenize_and_generate. exec. rewrite Hp. exec.
        rewrite <- ?app_assoc. cbn [app]. rewrite Hv.
        cbn [is_null Z.eqb]. finish.
      * intros Hv Hn Hle. apply is_null_false in Hv. apply Z.leb_le in Hle.
        unfold tokenize_and_generate. exec. rewrite Hp. exec.
        rewrite <- ?app_assoc. cbn [app]. rewrite ?Hv. exec.
        rewrite <- ?app_assoc. cbn [app]. rewrite (bind_int _ _ _ Hn).
        rewrite Hle. finish.
      * intros Hv Hn Hlt. apply is_null_false in Hv. apply Z.leb_gt in Hlt.
        unfold tokenize_and_generate. exec. rewrite Hp. exec.
        rewrite <- ?app_assoc. cbn [app]. rewrite ?Hv. exec.
        rewrite <- ?app_assoc. cbn [app]. rewrite (bind_int _ _ _ Hn).
        rewrite Hlt. finish.
  - intros s w prompt vocab n Hw. cbv zeta. intros [Hsum Hadj].
    assert (Hrun :
      decode_and_generate lib handle j prompt vocab n max_tokens s =
      bind (call lib (llama_tokenize vocab prompt (strlen prompt)
                        (Some (repeat 0 (Z.to_nat n)))
                        (Z.of_nat (List.length (repeat 0 (Z.to_nat n))))
                        true true))
        (fun filled =>
           let tokens_list := overwrite (repeat 0 (Z.to_nat n)) (snd filled) in
           call lib (ReleaseStringUTFChars j prompt);;;
           batch <- call lib (llama_batch_get_one tokens_list
                                (Z.of_nat (List.length tokens_list)));;
           c <- field ctx handle;;
           decode_result <- call lib (llama_decode c batch);;
           if negb (decode_result =? 0) then call lib (NewStringUTF EmptyString)
           else
             let max_tokens :=
               effective_limit
                 (uint_to_int (lib (trace s) (llama_n_ctx (ctx w))))
                 n max_tokens in
             capacity <- int (max_tokens * 4);;
             string_reserve capacity;;;
             generated <- generation_loop lib handle vocab
                            (Z.to_nat max_tokens) EmptyString 0;;
             call lib (NewStringUTF (c_str (fst generated))))
        (after s [llama_n_ctx (ctx w)])).
    { unfold decode_and_generate. exec. cbv zeta.
      rewrite (bind_int _ _ _ Hsum). unfold effective_limit.
      destruct (_ <? _) eqn:Hlt.
      - apply Z.ltb_lt in Hlt. destruct (Hadj Hlt) as [H1 H2].
        exec. rewrite (bind_int _ _ _ H1). rewrite (bind_int _ _ _ H2).
        finish.
      - finish. }
    rewrite Hrun. clear Hrun. unfold after. exec. cbv zeta.
    rewrite <- ?app_assoc. cbn [app]. split.
    + intros Hd. apply Z.eqb_neq in Hd. rewrite Hd. cbn [negb].
      finish.
    + intros Hd Hcap Hlim. rewrite Hd. cbn [Z.eqb negb].
      rewrite (bind_int _ _ _ Hcap).
      rewrite bind_string_reserve by lia. finish.
  - intros s w vocab n result n_decoded Hw. cbv zeta. intros Heog.
    repeat apply conj.
    + intros Hneg. apply Z.ltb_lt in Hneg. cbn [generation_loop]. exec.
      rewrite ?Heog. exec. rewrite <- ?app_assoc. cbn [app].
      rewrite ?Hneg. finish.
    + intros Hpos Hfit Hd. apply Z.ltb_ge in Hpos. apply Z.eqb_neq in Hd.
      cbn [generation_loop]. exec.
      rewrite ?Heog. exec. rewrite <- ?app_assoc. cbn [app].
      rewrite ?Hpos.
      destruct (0 <? _) eqn:Hlt.
      * apply Z.ltb_lt in Hlt. rewrite (bind_string_append _ _ _ _ (Hfit Hlt)).
        exec. rewrite <- ?app_assoc. cbn [app]. rewrite ?Hd. cbn [negb].
        finish.
      * exec. rewrite <- ?app_assoc. cbn [app]. rewrite ?Hd. cbn [negb].
        finish.
    + intros Hpos Hfit Hd. apply Z.ltb_ge in Hpos.
      cbn [generation_loop]. exec.
      rewrite ?Heog. exec. rewrite <- ?app_assoc. cbn [app].
      rewrite ?Hpos.
      destruct (0 <? _) eqn:Hlt.
      * apply Z.ltb_lt in Hlt. rewrite (bind_string_append _ _ _ _ (Hfit Hlt)).
        exec. rewrite <- ?app_assoc. cbn [app]. rewrite ?Hd.
        cbn [Z.eqb negb]. finish.
      * exec. rewrite <- ?app_assoc. cbn [app]. rewrite ?Hd.
        cbn [Z.eqb negb]. finish.
Qed.

(** The generation loop at the state the sample run is in when the decoding
    of the first generated token fails: the loop ends and gives back the
    piece it had added. *)
Lemma nativeGenerate_failures_witness :
  let s := {| heap := {[ 500 := with_ctx 301 Sample.wrapper ]};
              trace := [llama_decode 301 (Batch 1)] |} in
  generation_loop Sample.decode_fails_in_loop 500 250 16 EmptyString 0 s =
  (Returned ("Hi", 0),
   after s [llama_sampler_sample 400 301 (-1);
            llama_vocab_is_eog 250 42;
            llama_token_to_piece 250 42 256 0 true;
            llama_batch_get_one [42] 1;
            llama_decode 301 (Batch 1)]).
Proof.
  intros s.
  destruct (nativeGenerate_failures Sample.decode_fails_in_loop false 500 1 16)
    as (_ & _ & _ & _ & _ & Hloop).
  destruct (Hloop s (with_ctx 301 Sample.wrapper) 250 15%nat EmptyString 0)
    as (_ & Hfail & _).
  - apply lookup_singleton_eq.
  - reflexivity.
  - apply Hfail.
    + discriminate.
    + intros _. split; discriminate.
    + discriminate.
Defined.

(** ** nativeGenerate: the limit of the generation loop *)

(** The loop of [n] iterations decodes at most [n] tokens, and counts as
    many as it decodes. *)
Lemma generation_loop_decodes lib handle vocab n :
  forall result n_decoded s,
    let run := generation_loop lib handle vocab n result n_decoded s in
    (decodes (trace (snd run)) <= decodes (trace s) + n)%nat /\
    forall text count, fst run = Returned (text, count) ->
      n_decoded <= count <= n_decoded + Z.of_nat n.
Proof.
  induction n as [|n IH]; intros result n_decoded s run; subst run.
  - cbn [generation_loop ret fst snd]. split; [lia|].
    intros text count H. inversion H. lia.
  - cbn [generation_loop].
    destruct (heap s !! handle) as [w|] eqn:Hw.
    2:{ rewrite (bind_field_none _ _ _ _ Hw). cbn [fst snd].
        split; [lia | intros ? ? H; discriminate H]. }
    exec.
    assert (Hcount : forall c t, is_decode c = false ->
              decodes (t ++ [c]) = decodes t).
    { intros c t Hc. unfold decodes. rewrite List.filter_app. cbn.
      rewrite Hc. now rewrite app_nil_r. }
    assert (Hdec : forall c b t,
              decodes (t ++ [llama_decode c b]) = S (decodes t)).
    { intros c b t. unfold decodes. rewrite List.filter_app, length_app.
      cbn. lia. }
    destruct (lib _ (llama_vocab_is_eog _ _)).
    { cbn [ret fst snd trace]. rewrite !Hcount by reflexivity.
      split; [lia|]. intros text count H. inversion H. lia. }
    exec. destruct (_ <? 0).
    { cbn [ret fst snd trace]. rewrite !Hcount by reflexivity.
      split; [lia|]. intros text count H. inversion H. lia. }
    set (piece := lib _ (llama_token_to_piece _ _ _ _ _)).
    assert (Hnext : forall result',
      let run :=
        bind (call lib (llama_batch_get_one
                [lib (trace s) (llama_sampler_sample (sampler w) (ctx w) (-1))]
                1))
          (fun batch =>
             c' <- field ctx handle;;
             decoded <- call lib (llama_decode c' batch);;
             if negb (decoded =? 0) then ret (result', n_decoded)
             else generation_loop lib handle vocab n result'
                                  (n_decoded + 1))
          {| heap := heap s;
             trace := ((trace s ++
               [llama_sampler_sample (sampler w) (ctx w) (-1)]) ++
               [llama_vocab_is_eog vocab
                  (lib (trace s)
                     (llama_sampler_sample (sampler w) (ctx w) (-1)))]) ++
               [llama_token_to_piece vocab
                  (lib (trace s)
                     (llama_sampler_sample (sampler w) (ctx w) (-1)))
                  256 0 true] |} in
      (decodes (trace (snd run)) <= decodes (trace s) + S n)%nat /\
      forall text count, fst run = Returned (text, count) ->
        n_decoded <= count <= n_decoded + Z.of_nat (S n)).
    { intros result'. exec. destruct (negb _).
      - cbn [ret fst snd trace]. rewrite Hdec, !Hcount by reflexivity.
        split; [lia|]. intros text count H. inversion H. lia.
      - match goal with
        | |- context [generation_loop lib handle vocab n ?r ?d ?st] =>
            destruct (IH r d st) as [H1 H2]
        end.
        cbn [trace] in H1. rewrite Hdec, !Hcount in H1 by reflexivity.
        split; [lia|]. intros text count Hr. specialize (H2 _ _ Hr). lia. }
    destruct (0 <? fst piece).
    + unfold string_append. destruct (_ && _).
      * rewrite bind_ret. apply Hnext.
      * cbn [undefined bind fst snd trace]. rewrite !Hcount by reflexivity.
        split; [lia | intros ? ? H; discriminate H].
    + rewrite bind_ret. apply Hnext.
Qed.

(** C8, the input on which the code fails.  A prompt of 2045 tokens in a
    context of 2048 with 100 tokens asked for brings the limit to -7; the
    prompt is decoded, and then [result.reserve(max_tokens * 4)] is asked
    for a capacity of -28: the call ends by an exception, before the loop
    and without a string to return.  The same happens when the caller
    passes a negative [max_tokens] that needs no adjustment. *)
Theorem nativeGenerate_negative_limit_throws :
  let run := nativeGenerate Sample.long_prompt false 500 1 100
                            Sample.initial in
  let run' := nativeGenerate Sample.working false 500 1 (-1)
                             Sample.initial in
  effective_limit 2048 2045 100 = -7 /\
  fst run = Thrown alloc_failure /\
  (exists t, trace (snd run) = t ++ [llama_decode 301 (Batch 1)]) /\
  fst run' = Thrown alloc_failure /\
  (exists t, trace (snd run') = t ++ [llama_decode 301 (Batch 1)]).
Proof.
  intros run run'. repeat split.
  - exists (removelast (trace (snd run))). reflexivity.
  - exists (removelast (trace (snd run'))). reflexivity.
Qed.

(** The same for every library: once the prompt is decoded, a negative
    limit ends the call by the exception. *)
Lemma decode_and_generate_negative_limit (lib : oracle) handle j prompt vocab
    n max_tokens s w :
  heap s !! handle = Some w ->
  let ask := llama_n_ctx (ctx w) in
  let n_ctx := uint_to_int (lib (trace s) ask) in
  let buffer := repeat 0 (Z.to_nat n) in
  let fill :=
    llama_tokenize vocab prompt (strlen prompt) (Some buffer)
                   (Z.of_nat (List.length buffer)) true true in
  let tokens := overwrite buffer (snd (lib (trace s ++ [ask]) fill)) in
  let release := ReleaseStringUTFChars j prompt in
  let get_one :=
    llama_batch_get_one tokens (Z.of_nat (List.length tokens)) in
  let decode :=
    llama_decode (ctx w) (lib (trace s ++ [ask; fill; release]) get_one) in
  let limit := effective_limit n_ctx n max_tokens in
  limit_defined n_ctx n max_tokens ->
  lib (trace s ++ [ask; fill; release; get_one]) decode = 0 ->
  in_int (limit * 4) = true -> limit < 0 ->
  decode_and_generate lib handle j prompt vocab n max_tokens s =
    (Thrown alloc_failure, after s [ask; fill; release; get_one; decode]).
Proof.
  intros Hw. cbv zeta. intros [Hsum Hadj] Hd Hcap Hneg.
  unfold decode_and_generate. exec. cbv zeta.
  rewrite (bind_int _ _ _ Hsum). unfold effective_limit in *.
  destruct (_ <? _) eqn:Hlt.
  - apply Z.ltb_lt in Hlt. destruct (Hadj Hlt) as [H1 H2].
    exec. rewrite (bind_int _ _ _ H1). rewrite (bind_int _ _ _ H2).
    exec. rewrite <- ?app_assoc. cbn [app]. rewrite Hd.
    cbn [Z.eqb negb]. rewrite (bind_int _ _ _ Hcap).
    unfold string_reserve. apply Z.ltb_lt in Hneg.
    replace (_ * 4 <? 0) with true by (symmetry; apply Z.ltb_lt;
      apply Z.ltb_lt in Hneg; lia).
    reflexivity.
  - exec. rewrite <- ?app_assoc. cbn [app]. rewrite Hd.
    cbn [Z.eqb negb]. rewrite (bind_int _ _ _ Hcap).
    unfold string_reserve.
    replace (_ * 4 <? 0) with true by (symmetry; apply Z.ltb_lt; lia).
    reflexivity.
Qed.

(** * Further properties of the shim *)

(** ** Counting calls through a computation *)

Lemma count_app p a b : count p (a ++ b) = (count p a + count p b)%nat.
Proof. unfold count. now rewrite List.filter_app, length_app. Qed.

Lemma count_snoc p t c :
  count p (t ++ [c]) = (count p t + if p c then 1 else 0)%nat.
Proof. rewrite count_app. unfold count. cbn. now destruct (p c). Qed.

Section AtMost.
Context {A B : Type} (p : extern_call -> bool).

Lemma at_most_le k k' (m : M A) :
  (k <= k')%nat -> at_most p k m -> at_most p k' m.
Proof. intros Hk Hm s. specialize (Hm s). lia. Qed.

Lemma at_most_ret (a : A) : at_most p 0 (ret a).
Proof. intros s. cbn [ret throw undefined snd trace]. lia. Qed.

Lemma at_most_throw e : at_most p 0 (@throw A e).
Proof. intros s. cbn [ret throw undefined snd trace]. lia. Qed.

Lemma at_most_undefined : at_most p 0 (@undefined A).
Proof. intros s. cbn [ret throw undefined snd trace]. lia. Qed.

(** The continuation may rely on what the first part returns. *)
Lemma at_most_bind_post (Q : A -> Prop) a b (m : M A) (k : A -> M B) :
  (forall s x, fst (m s) = Returned x -> Q x) ->
  at_most p a m -> (forall x, Q x -> at_most p b (k x)) ->
  at_most p (a + b) (bind m k).
Proof.
  intros HQ Hm Hk s. unfold bind. specialize (Hm s). specialize (HQ s).
  destruct (m s) as [[x| |] s1]; cbn [fst snd] in *; try lia.
  specialize (Hk x (HQ x eq_refl) s1). lia.
Qed.

Lemma at_most_bind a b (m : M A) (k : A -> M B) :
  at_most p a m -> (forall x, at_most p b (k x)) ->
  at_most p (a + b) (bind m k).
Proof.
  intros Hm Hk. apply (at_most_bind_post (fun _ => True)); auto.
Qed.

Lemma at_most_bind0 b (m : M A) (k : A -> M B) :
  at_most p 0 m -> (forall x, at_most p b (k x)) -> at_most p b (bind m k).
Proof. apply (at_most_bind 0 b). Qed.

Lemma at_most_then_quiet a (m : M A) (k : A -> M B) :
  at_most p a m -> (forall x, at_most p 0 (k x)) -> at_most p a (bind m k).
Proof.
  intros Hm Hk s. pose proof (at_most_bind a 0 m k Hm Hk s). lia.
Qed.

End AtMost.

Lemma at_most_assoc {A B C} p b (m : M A) (k1 : A -> M B) (k2 : B -> M C) :
  at_most p b (bind m (fun a => bind (k1 a) k2)) ->
  at_most p b (bind (bind m k1) k2).
Proof. intros H s. rewrite bind_bind. apply H. Qed.

Lemma at_most_call p lib c : at_most p (if p c then 1 else 0) (call lib c).
Proof. intros s. cbn [call snd trace]. rewrite count_snoc. lia. Qed.

Lemma at_most_field p f handle : at_most p 0 (field f handle).
Proof. intros s. unfold field. destruct (heap s !! handle); cbn [ret throw undefined snd trace]; lia. Qed.

Lemma at_most_assign p upd handle : at_most p 0 (assign upd handle).
Proof. intros s. unfold assign. destruct (heap s !! handle); cbn [ret throw undefined snd trace]; lia. Qed.

Lemma at_most_int p z : at_most p 0 (int z).
Proof. intros s. unfold int. destruct (in_int z); cbn [ret throw undefined snd trace]; lia. Qed.

Lemma at_most_string_reserve p n : at_most p 0 (string_reserve n).
Proof. intros s. unfold string_reserve. destruct (n <? 0); cbn [ret throw undefined snd trace]; lia. Qed.

Lemma at_most_string_append p r b n : at_most p 0 (string_append r b n).
Proof. intros s. unfold string_append. destruct (_ && _); cbn [ret throw undefined snd trace]; lia. Qed.

(** Goes through a computation whose calls [p] all rejects. *)
Ltac quiet :=
  repeat match goal with
    | |- @at_most _ 0 _ (bind _ _) => apply at_most_bind0; [|intro]
    | |- @at_most _ 0 _ (let _ := _ in _) => cbv zeta
    | |- @at_most _ 0 _ (if ?b then _ else _) => destruct b
    | |- @at_most _ 0 _ (match ?x with _ => _ end) => destruct x
    | |- @at_most ?p 0 _ (call ?l ?c) => exact (at_most_call p l c)
    | |- @at_most _ 0 _ (ret _) => apply at_most_ret
    | |- @at_most _ 0 _ (throw _) => apply at_most_throw
    | |- @at_most _ 0 _ undefined => apply at_most_undefined
    | |- @at_most _ 0 _ (field _ _) => apply at_most_field
    | |- @at_most _ 0 _ (assign _ _) => apply at_most_assign
    | |- @at_most _ 0 _ (int _) => apply at_most_int
    | |- @at_most _ 0 _ (string_reserve _) => apply at_most_string_reserve
    | |- @at_most _ 0 _ (string_append _ _ _) => apply at_most_string_append
    end.

(** Passes a first part that makes no call [p] accepts. *)
Ltac skip :=
  match goal with
  | |- @at_most ?p ?b _ (bind ?m ?k) =>
      refine (at_most_bind0 p b m k _ _); [quiet | intro]
  end.

(** Closes a branch that makes no call [p] accepts. *)
Ltac idle :=
  match goal with
  | |- @at_most ?p ?b _ ?m =>
      refine (at_most_le p 0 b m (Nat.le_0_l b) _); quiet
  end.

(** The loop of [n] iterations decodes and samples at most [n] times. *)
Lemma at_most_generation_loop_decode lib handle vocab n :
  forall result n_decoded,
    at_most is_decode n (generation_loop lib handle vocab n result n_decoded).
Proof.
  induction n as [|n IH]; intros; cbn [generation_loop].
  - apply at_most_ret.
  - do 4 skip.
    destruct x2; [idle|].
    skip.
    destruct (_ <? 0); [idle|].
    do 3 skip.
    apply (at_most_bind _ 1 n); [exact (at_most_call is_decode lib _)|intro].
    destruct (negb _); [idle | apply IH].
Qed.

Lemma at_most_generation_loop_sample lib handle vocab n :
  forall result n_decoded,
    at_most is_sample n (generation_loop lib handle vocab n result n_decoded).
Proof.
  induction n as [|n IH]; intros; cbn [generation_loop].
  - apply at_most_ret.
  - do 2 skip.
    apply (at_most_bind _ 1 n); [exact (at_most_call is_sample lib _)|intro].
    skip.
    destruct x2; [idle|].
    skip.
    destruct (_ <? 0); [idle|].
    do 4 skip.
    destruct (negb _); [idle|].
    apply (at_most_le _ n); [lia | apply IH].
Qed.

Lemma int_returns z s x : fst (int z s) = Returned x -> x = z.
Proof.
  unfold int. destruct (in_int z); cbn; [|discriminate].
  now intros [= ->].
Qed.

(** Lines 249-254 give the loop the limit [effective_limit]. *)
Lemma limit_returns n_ctx n max_tokens s x :
  fst ((if n_ctx <? n + max_tokens
        then d <- int (n_ctx - n);; int (d - 10)
        else ret max_tokens) s) = Returned x ->
  x = effective_limit n_ctx n max_tokens.
Proof.
  unfold effective_limit. destruct (_ <? _).
  - unfold bind, int. destruct (in_int (n_ctx - n)); cbn; [|discriminate].
    destruct (in_int (n_ctx - n - 10)); cbn; [|discriminate].
    now intros [= ->].
  - cbn. now intros [= ->].
Qed.

Lemma effective_limit_le_max_tokens n_ctx n max_tokens :
  effective_limit n_ctx n max_tokens <= max_tokens.
Proof.
  unfold effective_limit. destruct (_ <? _) eqn:E; [|lia].
  apply Z.ltb_lt in E. lia.
Qed.

Lemma effective_limit_le_room n_ctx n max_tokens :
  effective_limit n_ctx n max_tokens <= n_ctx - n.
Proof.
  unfold effective_limit. destruct (_ <? _) eqn:E; [lia|].
  apply Z.ltb_ge in E. lia.
Qed.

Lemma decode_and_generate_budget (lib : oracle) handle j prompt vocab n
    max_tokens s w :
  heap s !! handle = Some w ->
  let limit :=
    effective_limit (uint_to_int (lib (trace s) (llama_n_ctx (ctx w))))
                    n max_tokens in
  let run := decode_and_generate lib handle j prompt vocab n max_tokens s in
  (count is_decode (trace (snd run))
     <= count is_decode (trace s) + 1 + Z.to_nat limit)%nat /\
  (count is_sample (trace (snd run))
     <= count is_sample (trace s) + Z.to_nat limit)%nat.
Proof.
  intros Hw limit run. subst run. unfold decode_and_generate. exec.
  cbv zeta. fold limit.
  set (n_ctx := uint_to_int (lib (trace s) (llama_n_ctx (ctx w)))) in *.
  match goal with
  | |- context [snd (?m ?st)] =>
      assert (Hd : at_most is_decode (1 + Z.to_nat limit) m);
      [| assert (Hs : at_most is_sample (Z.to_nat limit) m);
         [| specialize (Hd st); specialize (Hs st) ] ]
  end.
  - apply (at_most_bind_post _ (fun total => total = n + max_tokens) 0
             (1 + Z.to_nat limit));
      [intros ? ?; apply int_returns | quiet | intros total ->].
    apply (at_most_bind_post _ (fun x => x = limit) 0
             (1 + Z.to_nat limit));
      [intros ? ?; apply limit_returns | quiet | intros x ->].
    do 4 skip.
    apply (at_most_bind _ 1 (Z.to_nat limit));
      [exact (at_most_call is_decode lib _) | intro].
    destruct (negb _); [idle|].
    do 2 skip.
    refine (at_most_then_quiet _ _ _ _ _ _);
      [apply at_most_generation_loop_decode | intro].
    exact (at_most_call is_decode lib _).
  - apply (at_most_bind_post _ (fun total => total = n + max_tokens) 0
             (Z.to_nat limit));
      [intros ? ?; apply int_returns | quiet | intros total ->].
    apply (at_most_bind_post _ (fun x => x = limit) 0
             (Z.to_nat limit));
      [intros ? ?; apply limit_returns | quiet | intros x ->].
    do 5 skip.
    destruct (negb _); [idle|].
    do 2 skip.
    refine (at_most_then_quiet _ _ _ _ _ _);
      [apply at_most_generation_loop_sample | intro].
    exact (at_most_call is_sample lib _).
  - cbn [trace] in Hd, Hs. rewrite count_snoc in Hd, Hs.
    cbn [is_decode is_sample] in Hd, Hs. split.
    + eapply Nat.le_trans; [exact Hd | lia].
    + eapply Nat.le_trans; [exact Hs | lia].
Qed.

(** Goes through a computation and counts the calls [p] accepts against
    the bound of the goal. *)
Ltac budget :=
  repeat match goal with
    | |- @at_most ?p ?b _ (bind (call ?l ?c) ?k) =>
        let v := eval cbv in (p c) in
        lazymatch v with
        | false =>
            refine (at_most_bind0 p b (call l c) k (at_most_call p l c) _);
            intro
        | true =>
            lazymatch b with
            | S ?b' =>
                refine (at_most_bind p 1 b' (call l c) k
                          (at_most_call p l c) _);
                intro
            end
        end
    | |- @at_most ?p ?b _ (bind ?m ?k) =>
        refine (at_most_bind0 p b m k _ _); [solve [quiet] | intro]
    | |- @at_most _ _ _ (bind (bind _ _) _) => apply at_most_assoc
    | |- @at_most _ _ _ (let _ := _ in _) => cbv zeta
    | |- @at_most _ _ _ (if ?c then _ else _) => destruct c
    | |- @at_most _ _ _ (match ?x with _ => _ end) => destruct x
    | |- @at_most _ _ _ _ => solve [idle]
    end.

Lemma at_most_generation_loop_tokenize lib handle vocab n :
  forall result n_decoded,
    at_most is_tokenize 0
      (generation_loop lib handle vocab n result n_decoded).
Proof.
  induction n as [|n IH]; intros; cbn [generation_loop]; budget. apply IH.
Qed.

Lemma at_most_generation_loop_new_context lib handle vocab n :
  forall result n_decoded,
    at_most is_new_context 0
      (generation_loop lib handle vocab n result n_decoded).
Proof.
  induction n as [|n IH]; intros; cbn [generation_loop]; budget. apply IH.
Qed.

Lemma at_most_decode_and_generate_decode lib handle j prompt vocab n
    max_tokens :
  at_most is_decode (1 + Z.to_nat max_tokens)
    (decode_and_generate lib handle j prompt vocab n max_tokens).
Proof.
  intros s. destruct (heap s !! handle) as [w|] eqn:Hw.
  - destruct (decode_and_generate_budget lib handle j prompt vocab n
                max_tokens s w Hw) as [H _].
    cbv zeta in H. eapply Nat.le_trans; [exact H|].
    pose proof (effective_limit_le_max_tokens
      (uint_to_int (lib (trace s) (llama_n_ctx (ctx w)))) n max_tokens).
    lia.
  - unfold decode_and_generate. rewrite (bind_field_none _ _ _ _ Hw).
    cbn [snd]. lia.
Qed.

Lemma at_most_decode_and_generate_sample lib handle j prompt vocab n
    max_tokens :
  at_most is_sample (Z.to_nat max_tokens)
    (decode_and_generate lib handle j prompt vocab n max_tokens).
Proof.
  intros s. destruct (heap s !! handle) as [w|] eqn:Hw.
  - destruct (decode_and_generate_budget lib handle j prompt vocab n
                max_tokens s w Hw) as [_ H].
    cbv zeta in H. eapply Nat.le_trans; [exact H|].
    pose proof (effective_limit_le_max_tokens
      (uint_to_int (lib (trace s) (llama_n_ctx (ctx w)))) n max_tokens).
    lia.
  - unfold decode_and_generate. rewrite (bind_field_none _ _ _ _ Hw).
    cbn [snd]. lia.
Qed.

Lemma at_most_decode_and_generate_tokenize lib handle j prompt vocab n
    max_tokens :
  at_most is_tokenize 1
    (decode_and_generate lib handle j prompt vocab n max_tokens).
Proof.
  unfold decode_and_generate. budget.
  refine (at_most_then_quiet _ _ _ _ _ _);
    [apply at_most_generation_loop_tokenize | intro].
  exact (at_most_call is_tokenize lib _).
Qed.

Lemma at_most_decode_and_generate_new_context lib handle j prompt vocab n
    max_tokens :
  at_most is_new_context 0
    (decode_and_generate lib handle j prompt vocab n max_tokens).
Proof.
  unfold decode_and_generate. budget.
  refine (at_most_then_quiet _ _ _ _ _ _);
    [apply at_most_generation_loop_new_context | intro].
  exact (at_most_call is_new_context lib _).
Qed.

Lemma at_most_nativeGenerate_decode lib rtl handle j max_tokens :
  at_most is_decode (1 + Z.to_nat max_tokens)
    (nativeGenerate lib rtl handle j max_tokens).
Proof.
  unfold nativeGenerate, tokenize_and_generate, recreate_context,
    log_context_recreated.
  budget; apply at_most_decode_and_generate_decode.
Qed.

Lemma at_most_nativeGenerate_sample lib rtl handle j max_tokens :
  at_most is_sample (Z.to_nat max_tokens)
    (nativeGenerate lib rtl handle j max_tokens).
Proof.
  unfold nativeGenerate, tokenize_and_generate, recreate_context,
    log_context_recreated.
  budget; apply at_most_decode_and_generate_sample.
Qed.

Lemma at_most_nativeGenerate_new_context lib rtl handle j max_tokens :
  at_most is_new_context 1 (nativeGenerate lib rtl handle j max_tokens).
Proof.
  unfold nativeGenerate, tokenize_and_generate, recreate_context,
    log_context_recreated.
  budget; apply at_most_decode_and_generate_new_context.
Qed.

Lemma at_most_nativeGenerate_tokenize lib rtl handle j max_tokens :
  at_most is_tokenize 2 (nativeGenerate lib rtl handle j max_tokens).
Proof.
  unfold nativeGenerate, tokenize_and_generate, recreate_context,
    log_context_recreated.
  budget; apply at_most_decode_and_generate_tokenize.
Qed.

(** ** How many calls a generation makes *)

(** X1.  Whatever the library answers, one call of [nativeGenerate] decodes
    at most once for the prompt and once for each of [max_tokens] tokens
    (none when [max_tokens] is negative), samples at most [max_tokens]
    times, creates at most one context and tokenizes at most twice. *)
Theorem nativeGenerate_call_budget (lib : oracle) rtl handle j max_tokens s :
  let run := nativeGenerate lib rtl handle j max_tokens s in
  (count is_decode (trace (snd run))
     <= count is_decode (trace s) + 1 + Z.to_nat max_tokens)%nat /\
  (count is_sample (trace (snd run))
     <= count is_sample (trace s) + Z.to_nat max_tokens)%nat /\
  (count is_new_context (trace (snd run))
     <= count is_new_context (trace s) + 1)%nat /\
  (count is_tokenize (trace (snd run))
     <= count is_tokenize (trace s) + 2)%nat.
Proof.
  intros run. subst run. repeat split.
  - pose proof (at_most_nativeGenerate_decode lib rtl handle j max_tokens s).
    lia.
  - apply at_most_nativeGenerate_sample.
  - apply at_most_nativeGenerate_new_context.
  - apply at_most_nativeGenerate_tokenize.
Qed.

(** X2.  From the check of the context length on (line 246), a run decodes
    the prompt once and then at most as many generated tokens as the
    context size the library reports leaves room for after the prompt, none
    when the prompt alone fills the context; it samples no more often. *)
Theorem decode_and_generate_fits_context (lib : oracle) handle j prompt vocab
    n max_tokens s w :
  heap s !! handle = Some w ->
  let n_ctx := uint_to_int (lib (trace s) (llama_n_ctx (ctx w))) in
  let run := decode_and_generate lib handle j prompt vocab n max_tokens s in
  (count is_decode (trace (snd run))
     <= count is_decode (trace s) + 1 + Z.to_nat (n_ctx - n))%nat /\
  (count is_sample (trace (snd run))
     <= count is_sample (trace s) + Z.to_nat (n_ctx - n))%nat.
Proof.
  intros Hw n_ctx run.
  destruct (decode_and_generate_budget lib handle j prompt vocab n
              max_tokens s w Hw) as [Hd Hs].
  cbv zeta in Hd, Hs. fold n_ctx in Hd, Hs.
  pose proof (effective_limit_le_room n_ctx n max_tokens).
  subst run. split.
  - eapply Nat.le_trans; [exact Hd | lia].
  - eapply Nat.le_trans; [exact Hs | lia].
Qed.

(** A prompt of 2045 tokens in the context of 2048 of the sample library,
    with 3 tokens asked for: the 3 tokens the context has room for are
    sampled, and the bound is reached. *)
Lemma decode_and_generate_fits_context_witness :
  (count is_sample
     (trace (snd (decode_and_generate Sample.working 500%Z 1%Z "hello" 250%Z
                    2045%Z 3%Z Sample.initial))) <= 3)%nat /\
  count is_sample
    (trace (snd (decode_and_generate Sample.working 500%Z 1%Z "hello" 250%Z
                   2045%Z 3%Z Sample.initial))) = 3%nat.
Proof.
  split.
  - destruct (decode_and_generate_fits_context Sample.working 500 1 "hello"
                250 2045 3 Sample.initial Sample.wrapper) as [_ H].
    + apply lookup_singleton_eq.
    + exact H.
  - vm_compute. reflexivity.
Defined.

(** ** The strings borrowed from the JNI environment *)

Lemma count_grows p {A} (m : M A) : grows m -> at_least p 0 m.
Proof.
  intros Hg s a _. destruct (Hg s) as [added ->]. rewrite count_app. lia.
Qed.

Lemma at_least_bind p a b {A B} (m : M A) (k : A -> M B) :
  at_least p a m -> (forall x, at_least p b (k x)) ->
  at_least p (a + b) (bind m k).
Proof.
  intros Hm Hk s r. unfold bind. specialize (Hm s).
  destruct (m s) as [[x| |] s1]; cbn [fst snd] in *; try discriminate.
  intros Hr. specialize (Hm x eq_refl). specialize (Hk x s1 r Hr). lia.
Qed.

Lemma at_least_after p b {A B} (m : M A) (k : A -> M B) :
  grows m -> (forall x, at_least p b (k x)) -> at_least p b (bind m k).
Proof.
  intros Hm Hk. apply (at_least_bind p 0 b); [now apply count_grows | exact Hk].
Qed.

Lemma at_least_call p lib c :
  at_least p (if p c then 1 else 0) (call lib c).
Proof. intros s a _. cbn [call snd trace]. rewrite count_snoc. lia. Qed.

Lemma at_most_generation_loop_release lib handle vocab n :
  forall result n_decoded,
    at_most is_release 0
      (generation_loop lib handle vocab n result n_decoded).
Proof.
  induction n as [|n IH]; intros; cbn [generation_loop]; budget. apply IH.
Qed.

Lemma at_most_decode_and_generate_release lib handle j prompt vocab n
    max_tokens :
  at_most is_release 1
    (decode_and_generate lib handle j prompt vocab n max_tokens).
Proof.
  unfold decode_and_generate. budget.
  refine (at_most_then_quiet _ _ _ _ _ _);
    [apply at_most_generation_loop_release | intro].
  exact (at_most_call is_release lib _).
Qed.

Lemma is_release_of_same j chars :
  is_release_of j chars (ReleaseStringUTFChars j chars) = true.
Proof. cbn. now rewrite Z.eqb_refl, String.eqb_refl. Qed.

Lemma at_least_release lib j chars :
  at_least (is_release_of j chars) 1
    (call lib (ReleaseStringUTFChars j chars)).
Proof.
  intros s a _. cbn [call snd trace].
  now rewrite count_snoc, is_release_of_same.
Qed.

Lemma count_le p q calls :
  (forall c, q c = true -> p c = true) -> (count q calls <= count p calls)%nat.
Proof.
  intros H. unfold count. induction calls as [|c l IH]; cbn; [lia|].
  destruct (q c) eqn:Hq.
  - rewrite (H c Hq). cbn. lia.
  - destruct (p c); cbn; lia.
Qed.

Lemma is_release_of_release j chars c :
  is_release_of j chars c = true -> is_release c = true.
Proof. now destruct c. Qed.

Lemma at_least_decode_and_generate_release lib handle j prompt vocab n
    max_tokens :
  at_least (is_release_of j prompt) 1
    (decode_and_generate lib handle j prompt vocab n max_tokens).
Proof.
  unfold decode_and_generate.
  do 2 (apply at_least_after; [structural | intro]). cbv zeta.
  do 3 (apply at_least_after; [structural | intro]).
  apply (at_least_bind _ 1 0); [apply at_least_release | intro].
  apply count_grows. structural.
Qed.

(** X3.  From the point where it asks for the characters of the prompt
    (line 203), a call of [nativeGenerate] releases at most once.  When it
    gets a null pointer it releases nothing.  When it gets the characters
    and returns, it has released exactly once, and what it released are
    these characters of this string: at the null vocabulary, at the failed
    tokenization, or before the prompt is decoded. *)
Theorem tokenize_and_generate_releases_prompt (lib : oracle) handle j
    max_tokens s :
  let run := tokenize_and_generate lib handle j max_tokens s in
  (count is_release (trace (snd run)) <= count is_release (trace s) + 1)%nat /\
  (lib (trace s) (GetStringUTFChars j) = None ->
   count is_release (trace (snd run)) = count is_release (trace s)) /\
  (forall prompt r,
     lib (trace s) (GetStringUTFChars j) = Some prompt ->
     fst run = Returned r ->
     count is_release (trace (snd run))
       = (count is_release (trace s) + 1)%nat /\
     count (is_release_of j prompt) (trace (snd run))
       = (count (is_release_of j prompt) (trace s) + 1)%nat).
Proof.
  intros run.
  assert (Hmost : at_most is_release 1
                    (tokenize_and_generate lib handle j max_tokens)).
  { unfold tokenize_and_generate. budget.
    apply at_most_decode_and_generate_release. }
  assert (Hgrows : grows (tokenize_and_generate lib handle j max_tokens))
    by apply grows_tokenize_and_generate.
  specialize (Hmost s). specialize (Hgrows s). fold run in Hmost, Hgrows.
  split; [exact Hmost|]. split.
  - intros Hp. subst run. unfold tokenize_and_generate. exec. rewrite Hp.
    cbn [call snd trace]. rewrite !count_snoc. cbn [is_release]. lia.
  - intros prompt r Hp Hr.
    assert (Hleast : (count (is_release_of j prompt) (trace s) + 1
                      <= count (is_release_of j prompt) (trace (snd run)))%nat).
    { revert Hr. subst run. unfold tokenize_and_generate. exec. rewrite Hp.
      match goal with
      | |- context [snd (?m ?st)] =>
          assert (Hl : at_least (is_release_of j prompt) 1 m);
          [| specialize (Hl st r) ]
      end.
      { do 2 (apply at_least_after; [structural | intro]).
        destruct (is_null x0).
        - apply (at_least_bind _ 1 0); [apply at_least_release | intro].
          apply count_grows. structural.
        - do 2 (apply at_least_after; [structural | intro]).
          destruct (_ <=? 0).
          + apply (at_least_bind _ 1 0); [apply at_least_release | intro].
            apply count_grows. structural.
          + apply at_least_decode_and_generate_release. }
      intros Hr. specialize (Hl Hr). cbn [trace] in Hl.
      rewrite count_snoc in Hl. cbn [is_release_of] in Hl.
      eapply Nat.le_trans; [|exact Hl]. lia. }
    destruct Hgrows as [added Ha]. rewrite Ha in *.
    rewrite !count_app in *.
    pose proof (count_le is_release (is_release_of j prompt) added
                  (is_release_of_release j prompt)).
    lia.
Qed.

(** With the sample library the prompt ["hello"] is released once. *)
Lemma tokenize_and_generate_releases_prompt_witness :
  count (is_release_of 1 "hello")
    (trace (snd (tokenize_and_generate Sample.working 500 1 2
                   Sample.initial))) = 1%nat.
Proof.
  refine (proj2 (proj2 (proj2 (tokenize_and_generate_releases_prompt
            Sample.working 500 1 2 Sample.initial)) "hello" 900 _ _)).
  - reflexivity.
  - reflexivity.
Defined.

(** Counts the calls of a list that is written out. *)
Ltac count_listed :=
  rewrite ?count_app; unfold count, init_calls, init_sequence, sampler_sequence,
    context_calls, load_calls, probe_calls, open_calls;
  cbn [List.filter app List.length is_release is_release_of];
  rewrite ?Z.eqb_refl, ?String.eqb_refl;
  cbn [andb List.filter app List.length]; lia.

(** X4.  Once [nativeInit] has the characters of the path, it releases them
    exactly once, whether the file cannot be opened, the model cannot be
    loaded, the context cannot be created, the wrapper cannot be allocated
    or the run succeeds. *)
Theorem nativeInit_releases_path (lib : oracle) s j path :
  lib (trace s) (GetStringUTFChars j) = Some path ->
  let run := nativeInit lib j s in
  count is_release (trace (snd run)) = (count is_release (trace s) + 1)%nat /\
  count (is_release_of j path) (trace (snd run))
    = (count (is_release_of j path) (trace s) + 1)%nat.
Proof.
  intros Hpath run. subst run.
  destruct (Z.eq_dec (init_file lib s j path) 0) as [Hf|Hf].
  { rewrite (nativeInit_no_file lib s j path Hpath Hf). cbn [snd trace].
    split; count_listed. }
  destruct (Z.eq_dec (init_model lib s j path) 0) as [Hm|Hm].
  { rewrite (nativeInit_no_model lib s j path Hpath Hf Hm). cbn [snd trace].
    split; count_listed. }
  destruct (Z.eq_dec (init_ctx lib s j path) 0) as [Hc|Hc].
  { rewrite (nativeInit_no_context lib s j path Hpath Hf Hm Hc).
    cbn [snd trace]. split; count_listed. }
  pose proof (nativeInit_success lib s j path Hpath Hf Hm Hc) as E.
  cbv zeta in E. rewrite E. clear E.
  destruct (is_null _); cbn [snd trace]; split; count_listed.
Qed.

Lemma nativeInit_releases_path_witness :
  count is_release (trace (snd (nativeInit Sample.no_model 1 Sample.empty)))
  = 1%nat.
Proof.
  refine (proj1 (nativeInit_releases_path Sample.no_model Sample.empty
                   1 "hello" _)).
  reflexivity.
Defined.

(** ** The life of a wrapper *)

Lemma nativeDestroy_run lib s handle w :
  handle <> 0 -> heap s !! handle = Some w ->
  nativeDestroy lib handle s =
    (Returned tt,
     {| heap := delete handle (heap s);
        trace := trace s ++ frees w
                   ++ [operator_delete handle; llama_backend_free] |}).
Proof.
  intros Hh Hw. unfold nativeDestroy. apply is_null_false in Hh. rewrite Hh.
  unfold bind at 1. rewrite (release_fields_run lib s handle w Hw).
  unfold bind, delete_wrapper. cbn [heap trace]. rewrite lookup_insert_eq.
  cbn [call heap trace]. rewrite delete_insert_eq.
  destruct (lib _ llama_backend_free). rewrite <- !app_assoc. reflexivity.
Qed.

Lemma nativeGenerate_after_recreate lib rtl s handle j max_tokens w :
  handle <> 0 -> heap s !! handle = Some w -> model w <> 0 ->
  nativeGenerate lib rtl handle j max_tokens s =
    (if is_null (recreated_ctx lib s w)
     then call lib (NewStringUTF context_failure_message)
     else log_context_recreated lib rtl handle;;;
          tokenize_and_generate lib handle j max_tokens)
      {| heap := <[handle := with_ctx (recreated_ctx lib s w) w]> (heap s);
         trace := trace s ++ recreate_calls lib s w |}.
Proof.
  intros Hh Hw Hm. apply is_null_false in Hh, Hm.
  unfold nativeGenerate. rewrite Hh. exec.
  unfold bind at 1. rewrite (recreate_context_run lib s handle w Hw).
  exec. reflexivity.
Qed.

Lemma nativeGenerate_leaves lib rtl s handle j max_tokens w :
  handle <> 0 -> heap s !! handle = Some w -> model w <> 0 ->
  let run := nativeGenerate lib rtl handle j max_tokens s in
  heap (snd run) = <[handle := with_ctx (recreated_ctx lib s w) w]> (heap s) /\
  exists rest, trace (snd run) = trace s ++ recreate_calls lib s w ++ rest.
Proof.
  intros Hh Hw Hm run. subst run.
  rewrite (nativeGenerate_after_recreate lib rtl s handle j max_tokens w
             Hh Hw Hm).
  destruct (is_null _).
  - cbn [call snd heap trace]. split; [reflexivity|].
    rewrite <- app_assoc. eauto.
  - set (rest := bind _ _).
    assert (Hg : grows rest) by (subst rest; structural).
    assert (Hk : keeps_heap rest) by (subst rest; structural).
    split; [now rewrite Hk|].
    match goal with
    | |- context [rest ?st] => destruct (Hg st) as [added Ha]
    end.
    exists added. rewrite Ha. cbn [trace]. now rewrite app_assoc.
Qed.

(** X5.  [nativeDestroy] after a [nativeGenerate] that returned frees the
    context that this generation created, none when the creation failed,
    with the sampler and the model the wrapper had; the context the wrapper
    had before was freed by the generation.  The wrapper is gone from the
    heap and the other wrappers are as they were. *)
Theorem nativeDestroy_after_nativeGenerate lib rtl s handle j max_tokens w r :
  handle <> 0 -> heap s !! handle = Some w -> model w <> 0 ->
  let run := nativeGenerate lib rtl handle j max_tokens s in
  let c := recreated_ctx lib s w in
  fst run = Returned r ->
  nativeDestroy lib handle (snd run) =
    (Returned tt,
     {| heap := delete handle (heap s);
        trace := trace (snd run) ++ frees (with_ctx c w)
                   ++ [operator_delete handle; llama_backend_free] |}).
Proof.
  intros Hh Hw Hm run c _.
  destruct (nativeGenerate_leaves lib rtl s handle j max_tokens w Hh Hw Hm)
    as [Hheap _].
  fold run c in Hheap.
  rewrite (nativeDestroy_run lib (snd run) handle (with_ctx c w) Hh).
  - rewrite Hheap, delete_insert_eq. reflexivity.
  - rewrite Hheap. apply lookup_insert_eq.
Qed.

(** After one generation with the sample library, the context 301 it
    created is the one that is freed. *)
Lemma nativeDestroy_after_nativeGenerate_witness :
  let run := nativeGenerate Sample.working false 500 1 2 Sample.initial in
  trace (snd (nativeDestroy Sample.working 500 (snd run))) =
  trace (snd run) ++ [llama_sampler_free 400; llama_free 301;
                      llama_model_free 200; operator_delete 500;
                      llama_backend_free].
Proof.
  intros run. subst run.
  rewrite (nativeDestroy_after_nativeGenerate Sample.working false
             Sample.initial 500 1 2 Sample.wrapper 900).
  - reflexivity.
  - discriminate.
  - apply lookup_singleton_eq.
  - discriminate.
  - reflexivity.
Defined.

(** X6.  Of two calls of [nativeGenerate] on the same handle, the second
    begins by freeing the context the first one created, and only that:
    when the first one could not create a context, the second frees
    nothing and goes on to create one. *)
Theorem nativeGenerate_frees_previous_context lib rtl s handle j max_tokens
    j' max_tokens' w r :
  handle <> 0 -> heap s !! handle = Some w -> model w <> 0 ->
  let run := nativeGenerate lib rtl handle j max_tokens s in
  let c := recreated_ctx lib s w in
  fst run = Returned r ->
  exists params rest,
    trace (snd (nativeGenerate lib rtl handle j' max_tokens' (snd run))) =
      trace (snd run)
        ++ (if is_null c then [] else [llama_free c])
        ++ [llama_context_default_params;
            llama_new_context_with_model (model w) params]
        ++ rest.
Proof.
  intros Hh Hw Hm run c _.
  destruct (nativeGenerate_leaves lib rtl s handle j max_tokens w Hh Hw Hm)
    as [Hheap _].
  fold run c in Hheap.
  assert (Hw' : heap (snd run) !! handle = Some (with_ctx c w)).
  { rewrite Hheap. apply lookup_insert_eq. }
  destruct (nativeGenerate_leaves lib rtl (snd run) handle j' max_tokens'
              (with_ctx c w) Hh Hw' Hm) as [_ [rest Hrest]].
  exists (recreate_params lib (snd run) (with_ctx c w)), rest.
  rewrite Hrest. unfold recreate_calls, free_old. cbn [ctx model with_ctx].
  now rewrite <- !app_assoc.
Qed.

Lemma nativeGenerate_frees_previous_context_witness :
  let run := nativeGenerate Sample.working false 500 1 2 Sample.initial in
  exists params rest,
    trace (snd (nativeGenerate Sample.working false 500 1 2 (snd run))) =
      trace (snd run) ++ [llama_free 301]
        ++ [llama_context_default_params;
            llama_new_context_with_model 200 params] ++ rest.
Proof.
  intros run.
  refine (nativeGenerate_frees_previous_context Sample.working false
            Sample.initial 500 1 2 1 2 Sample.wrapper 900 _ _ _ _).
  - discriminate.
  - apply lookup_singleton_eq.
  - discriminate.
  - reflexivity.
Defined.

(** X7.  [nativeDestroy] on the handle [nativeInit] returned, at an address
    that was free before, undoes the initialisation: it frees the sampler
    chain (when the library gave one), the context and the model that
    [nativeInit] obtained, deletes the wrapper and frees the backend, and
    the heap is again what it was before [nativeInit]. *)
Theorem nativeDestroy_after_nativeInit (lib : oracle) s j handle :
  let init := nativeInit lib j s in
  fst init = Returned handle -> handle <> 0 -> heap s !! handle = None ->
  exists w,
    heap (snd init) !! handle = Some w /\
    model w <> 0 /\ ctx w <> 0 /\
    nativeDestroy lib handle (snd init) =
      (Returned tt,
       {| heap := heap s;
          trace := trace (snd init)
            ++ (if is_null (sampler w) then []
                else [llama_sampler_free (sampler w)])
            ++ [llama_free (ctx w); llama_model_free (model w);
                operator_delete handle; llama_backend_free] |}).
Proof.
  intros init Hr Hh Hfree. subst init.
  destruct (lib (trace s) (GetStringUTFChars j)) as [path|] eqn:Hpath.
  2:{ unfold nativeInit in Hr. revert Hr. exec. rewrite Hpath. discriminate. }
  destruct (Z.eq_dec (init_file lib s j path) 0) as [Hf|Hf].
  { rewrite (nativeInit_no_file lib s j path Hpath Hf) in Hr.
    injection Hr as Hr. congruence. }
  destruct (Z.eq_dec (init_model lib s j path) 0) as [Hm|Hm].
  { rewrite (nativeInit_no_model lib s j path Hpath Hf Hm) in Hr.
    injection Hr as Hr. congruence. }
  destruct (Z.eq_dec (init_ctx lib s j path) 0) as [Hc|Hc].
  { rewrite (nativeInit_no_context lib s j path Hpath Hf Hm Hc) in Hr.
    injection Hr as Hr. congruence. }
  pose proof (nativeInit_success lib s j path Hpath Hf Hm Hc) as E.
  cbv zeta in E. rewrite E in *. clear E.
  destruct (is_null _) eqn:Ha; cbn [fst snd heap trace] in *;
    [discriminate|].
  injection Hr as <-. clear Ha.
  exists (init_wrapper lib s j path).
  split; [apply lookup_insert_eq|]. split; [exact Hm|]. split; [exact Hc|].
  erewrite nativeDestroy_run;
    [| exact Hh | cbn [heap]; apply lookup_insert_eq].
  cbn [heap trace]. rewrite delete_insert_id by exact Hfree.
  unfold frees. cbn [init_wrapper model ctx sampler].
  apply is_null_false in Hm, Hc. rewrite Hm, Hc.
  now rewrite <- !app_assoc.
Qed.

Lemma nativeDestroy_after_nativeInit_witness :
  heap (snd (nativeDestroy Sample.working 500
               (snd (nativeInit Sample.working 1 Sample.empty))))
  = heap Sample.empty.
Proof.
  destruct (nativeDestroy_after_nativeInit Sample.working Sample.empty 1 500)
    as (w & _ & _ & _ & H).
  - reflexivity.
  - discriminate.
  - reflexivity.
  - now rewrite H.
Defined.

(** X8.  Once [nativeDestroy] has run on a handle, the wrapper is gone: a
    further [nativeGenerate] or [nativeDestroy] on that handle reads
    through the dangling pointer, which is undefined behaviour, before it
    makes any call.  The shim keeps no record of the handles it has
    destroyed. *)
Theorem use_after_nativeDestroy lib rtl s handle j max_tokens w :
  handle <> 0 -> heap s !! handle = Some w ->
  let s' := snd (nativeDestroy lib handle s) in
  nativeGenerate lib rtl handle j max_tokens s' = (Undefined, s') /\
  nativeDestroy lib handle s' = (Undefined, s').
Proof.
  intros Hh Hw s'.
  assert (Hgone : heap s' !! handle = None).
  { subst s'. rewrite (nativeDestroy_run lib s handle w Hh Hw).
    cbn [snd heap]. apply lookup_delete_eq. }
  apply is_null_false in Hh. split.
  - unfold nativeGenerate. rewrite Hh.
    apply (bind_field_none _ _ _ _ Hgone).
  - unfold nativeDestroy, release_fields. rewrite Hh, !bind_bind.
    apply (bind_field_none _ _ _ _ Hgone).
Qed.

Lemma use_after_nativeDestroy_witness :
  fst (nativeDestroy Sample.working 500
         (snd (nativeDestroy Sample.working 500 Sample.initial)))
  = Undefined.
Proof.
  destruct (use_after_nativeDestroy Sample.working false Sample.initial
              500 1 2 Sample.wrapper) as [_ H].
  - discriminate.
  - apply lookup_singleton_eq.
  - now rewrite H.
Defined.

(** ** What a generation calls *)

Section Only.
Context {A B : Type} (p : extern_call -> bool).

Lemma only_ret (a : A) : only p (ret a).
Proof. intros s. exists []. cbn. now rewrite app_nil_r. Qed.

Lemma only_throw e : only p (@throw A e).
Proof. intros s. exists []. cbn. now rewrite app_nil_r. Qed.

Lemma only_undefined : only p (@undefined A).
Proof. intros s. exists []. cbn. now rewrite app_nil_r. Qed.

Lemma only_bind (m : M A) (k : A -> M B) :
  only p m -> (forall a, only p (k a)) -> only p (bind m k).
Proof.
  intros Hm Hk s. unfold bind. destruct (Hm s) as (a1 & H1 & P1).
  destruct (m s) as [[a| |] s']; cbn [snd] in *; eauto.
  destruct (Hk a s') as (a2 & H2 & P2). exists (a1 ++ a2). split.
  - now rewrite H2, H1, app_assoc.
  - now rewrite forallb_app, P1, P2.
Qed.

End Only.

Lemma only_call p lib c : p c = true -> only p (call lib c).
Proof. intros H s. exists [c]. cbn. now rewrite H. Qed.

Lemma only_field p f handle : only p (field f handle).
Proof.
  intros s. exists []. unfold field.
  destruct (heap s !! handle); cbn; now rewrite app_nil_r.
Qed.

Lemma only_assign p upd handle : only p (assign upd handle).
Proof.
  intros s. exists []. unfold assign.
  destruct (heap s !! handle); cbn; now rewrite app_nil_r.
Qed.

Lemma only_int p z : only p (int z).
Proof. unfold int. destruct (in_int z); [apply only_ret | apply only_undefined]. Qed.

Lemma only_string_reserve p n : only p (string_reserve n).
Proof.
  unfold string_reserve. destruct (n <? 0); [apply only_throw | apply only_ret].
Qed.

Lemma only_string_append p r b n : only p (string_append r b n).
Proof.
  unfold string_append.
  destruct (_ && _); [apply only_ret | apply only_undefined].
Qed.

(** Goes through a computation and checks each call against [p]. *)
Ltac checked :=
  repeat match goal with
    | |- @only _ _ (bind _ _) => apply only_bind; [|intro]
    | |- @only _ _ (let _ := _ in _) => cbv zeta
    | |- @only _ _ (if ?b then _ else _) => destruct b
    | |- @only _ _ (match ?x with _ => _ end) => destruct x
    | |- @only ?p _ (call ?l ?c) => exact (only_call p l c eq_refl)
    | |- @only _ _ (ret _) => apply only_ret
    | |- @only _ _ (throw _) => apply only_throw
    | |- @only _ _ undefined => apply only_undefined
    | |- @only _ _ (field _ _) => apply only_field
    | |- @only _ _ (assign _ _) => apply only_assign
    | |- @only _ _ (int _) => apply only_int
    | |- @only _ _ (string_reserve _) => apply only_string_reserve
    | |- @only _ _ (string_append _ _ _) => apply only_string_append
    end.

Lemma only_generation_loop lib handle vocab n :
  forall result n_decoded,
    only generate_call (generation_loop lib handle vocab n result n_decoded).
Proof.
  induction n as [|n IH]; intros; cbn [generation_loop]; checked. apply IH.
Qed.

(** X9.  Whatever the library answers, a call of [nativeGenerate] makes
    only the calls of a generation: it reads and releases the prompt,
    creates the returned string, frees and creates a context, asks for the
    vocabulary and the sizes, tokenizes, decodes, samples and converts
    tokens.  It never loads or frees a model, never builds or frees a
    sampler, never initialises or frees the backend, never allocates or
    deletes a wrapper and never touches a file.  Every context it asks for
    has [n_ctx = 2048], [n_batch = 512] and 4 threads; every tokenization
    adds and parses special tokens; every sampling is at index -1; every
    piece is asked for in 256 bytes, without stripping, with special
    tokens. *)
Theorem nativeGenerate_calls lib rtl handle j max_tokens s :
  exists added,
    trace (snd (nativeGenerate lib rtl handle j max_tokens s))
      = trace s ++ added /\
    forallb generate_call added = true.
Proof.
  assert (H : only generate_call
                (nativeGenerate lib rtl handle j max_tokens)).
  { unfold nativeGenerate, recreate_context, log_context_recreated,
      tokenize_and_generate, decode_and_generate.
    checked; apply only_generation_loop. }
  apply H.
Qed.

(** ** The text that is returned *)

Lemma c_str_no_nul s : ~ In zero (bytes (c_str s)).
Proof.
  unfold bytes. induction s as [|a s IH]; simpl; [tauto|].
  destruct (Ascii.eqb a zero) eqn:E; simpl; [tauto|].
  intros [H | H]; [|tauto]. apply Ascii.eqb_neq in E. congruence.
Qed.

Lemma c_str_rest s :
  exists rest,
    s = (c_str s ++ rest)%string /\
    (rest = EmptyString \/ exists t, rest = String zero t).
Proof.
  induction s as [|a s (rest & IH & Hrest)]; simpl.
  - exists EmptyString. split; [reflexivity | now left].
  - destruct (Ascii.eqb a zero) eqn:E.
    + apply Ascii.eqb_eq in E. subst a. exists (String zero s).
      split; [reflexivity | right; now exists s].
    + exists rest. split; [|exact Hrest].
      change (String a s = String a (c_str s ++ rest)). now f_equal.
Qed.

(** Once the prompt is decoded and the limit is not negative, the call is
    the generation loop followed by the creation of the returned string. *)
Lemma decode_and_generate_generates (lib : oracle) handle j prompt vocab
    n max_tokens s w :
  heap s !! handle = Some w ->
  let ask := llama_n_ctx (ctx w) in
  let n_ctx := uint_to_int (lib (trace s) ask) in
  let buffer := repeat 0 (Z.to_nat n) in
  let fill :=
    llama_tokenize vocab prompt (strlen prompt) (Some buffer)
                   (Z.of_nat (List.length buffer)) true true in
  let tokens := overwrite buffer (snd (lib (trace s ++ [ask]) fill)) in
  let release := ReleaseStringUTFChars j prompt in
  let get_one :=
    llama_batch_get_one tokens (Z.of_nat (List.length tokens)) in
  let decode :=
    llama_decode (ctx w) (lib (trace s ++ [ask; fill; release]) get_one) in
  let limit := effective_limit n_ctx n max_tokens in
  limit_defined n_ctx n max_tokens ->
  lib (trace s ++ [ask; fill; release; get_one]) decode = 0 ->
  in_int (limit * 4) = true -> 0 <= limit ->
  decode_and_generate lib handle j prompt vocab n max_tokens s =
    (generated <- generation_loop lib handle vocab (Z.to_nat limit)
                                  EmptyString 0;;
     call lib (NewStringUTF (c_str (fst generated))))
      (after s [ask; fill; release; get_one; decode]).
Proof.
  intros Hw. cbv zeta. intros [Hsum Hadj] Hd Hcap Hpos.
  unfold decode_and_generate. exec. cbv zeta.
  rewrite (bind_int _ _ _ Hsum). unfold effective_limit in *.
  destruct (_ <? _) eqn:Hlt.
  - apply Z.ltb_lt in Hlt. destruct (Hadj Hlt) as [H1 H2].
    exec. rewrite (bind_int _ _ _ H1). rewrite (bind_int _ _ _ H2).
    exec. rewrite <- ?app_assoc. cbn [app]. rewrite Hd.
    cbn [Z.eqb negb]. rewrite (bind_int _ _ _ Hcap).
    rewrite bind_string_reserve by lia. reflexivity.
  - exec. rewrite <- ?app_assoc. cbn [app]. rewrite Hd.
    cbn [Z.eqb negb]. rewrite (bind_int _ _ _ Hcap).
    rewrite bind_string_reserve by lia. reflexivity.
Qed.

(** X10.  When the generation loop gives back the text [text], the string
    the call hands to [NewStringUTF] ([result.c_str()], line 419) and
    returns is [text] up to its first NUL byte: [text] is what was sent
    followed by a rest, what was sent holds no NUL, and the rest is empty
    or begins with a NUL.  So a NUL byte in a piece cuts the returned
    string there, and the pieces after it are lost. *)
Theorem decode_and_generate_cuts_at_nul (lib : oracle) handle j prompt vocab
    n max_tokens s w text count :
  heap s !! handle = Some w ->
  let ask := llama_n_ctx (ctx w) in
  let n_ctx := uint_to_int (lib (trace s) ask) in
  let buffer := repeat 0 (Z.to_nat n) in
  let fill :=
    llama_tokenize vocab prompt (strlen prompt) (Some buffer)
                   (Z.of_nat (List.length buffer)) true true in
  let tokens := overwrite buffer (snd (lib (trace s ++ [ask]) fill)) in
  let release := ReleaseStringUTFChars j prompt in
  let get_one :=
    llama_batch_get_one tokens (Z.of_nat (List.length tokens)) in
  let decode :=
    llama_decode (ctx w) (lib (trace s ++ [ask; fill; release]) get_one) in
  let limit := effective_limit n_ctx n max_tokens in
  let loop :=
    generation_loop lib handle vocab (Z.to_nat limit) EmptyString 0
      (after s [ask; fill; release; get_one; decode]) in
  limit_defined n_ctx n max_tokens ->
  lib (trace s ++ [ask; fill; release; get_one]) decode = 0 ->
  in_int (limit * 4) = true -> 0 <= limit ->
  fst loop = Returned (text, count) ->
  exists sent rest,
    decode_and_generate lib handle j prompt vocab n max_tokens s =
      returning lib sent (snd loop) /\
    text = (sent ++ rest)%string /\
    ~ In zero (bytes sent) /\
    (rest = EmptyString \/ exists t, rest = String zero t).
Proof.
  intros Hw. cbv zeta. intros Hdef Hd Hcap Hpos Hloop.
  rewrite (decode_and_generate_generates lib handle j prompt vocab n
             max_tokens s w Hw Hdef Hd Hcap Hpos).
  unfold bind.
  destruct (generation_loop _ _ _ _ _ _ _) as [[g| |] s2];
    cbn [fst snd] in *; try discriminate.
  injection Hloop as ->.
  destruct (c_str_rest text) as (rest & Htext & Hrest).
  exists (c_str text), rest. repeat split.
  - exact Htext.
  - apply c_str_no_nul.
  - exact Hrest.
Qed.

(** With pieces of the bytes [H], NUL, [i], two iterations put together
    six bytes, and the string that is returned is ["H"]. *)
Lemma decode_and_generate_cuts_at_nul_witness :
  decode_and_generate nul_in_piece 500 1 "hello" 250 3 2 Sample.initial =
    returning nul_in_piece "H"
      (snd (generation_loop nul_in_piece 500 250 2 EmptyString 0
         (after Sample.initial
            [llama_n_ctx 300;
             llama_tokenize 250 "hello" 5 (Some [0; 0; 0]) 3 true true;
             ReleaseStringUTFChars 1 "hello";
             llama_batch_get_one [1; 15043; 29871] 3;
             llama_decode 300 (Batch 1)]))).
Proof.
  destruct (decode_and_generate_cuts_at_nul nul_in_piece 500 1 "hello" 250
              3 2 Sample.initial Sample.wrapper
              (String "H" (String zero (String "i"
                 (String "H" (String zero (String "i" EmptyString))))))
              2)
    as (sent & rest & Hrun & Htext & Hno & Hrest).
  - apply lookup_singleton_eq.
  - split; [reflexivity|]. intros H. exfalso. vm_compute in H. discriminate H.
  - reflexivity.
  - reflexivity.
  - vm_compute. discriminate.
  - reflexivity.
  - assert (Hsent : sent = "H").
    { destruct sent as [|a [|b sent]]; cbv [String.append] in Htext.
      - destruct Hrest as [-> | [t ->]]; discriminate Htext.
      - now injection Htext as <- _.
      - injection Htext as <- <- _. exfalso. apply Hno. cbn. tauto. }
    rewrite Hrun, Hsent. reflexivity.
Defined.

Lemma overwrite_keeps_size (buffer written : list Z) :
  List.length (overwrite buffer written) = List.length buffer /\
  (forall i, (i < List.length written)%nat -> (i < List.length buffer)%nat ->
     nth_error (overwrite buffer written) i = nth_error written i) /\
  (forall i, (List.length written <= i)%nat ->
     nth_error (overwrite buffer written) i = nth_error buffer i) /\
  (forall n, 0 <= n ->
     Z.of_nat (List.length (overwrite (repeat 0 (Z.to_nat n)) written)) = n).
Proof.
  assert (Hlen : forall b w : list Z,
            List.length (overwrite b w) = List.length b).
  { intros b w. unfold overwrite.
    rewrite length_firstn, length_app, length_skipn. lia. }
  repeat split.
  - apply Hlen.
  - intros i Hw Hb. unfold overwrite.
    rewrite nth_error_firstn.
    destruct (Nat.ltb_spec i (List.length buffer)) as [_|]; [|lia].
    now rewrite nth_error_app1.
  - intros i Hw. unfold overwrite. rewrite nth_error_firstn.
    destruct (Nat.ltb_spec i (List.length buffer)) as [Hb|Hb].
    + rewrite nth_error_app2 by exact Hw. rewrite nth_error_skipn.
      f_equal. lia.
    + symmetry. now apply nth_error_None.
  - intros n Hn. rewrite Hlen, repeat_length. lia.
Qed.

Lemma batches_of_samples_snoc lib c :
  is_batch c = false ->
  forall calls t sample,
    batches_of_samples lib t sample (calls ++ [c])
    = batches_of_samples lib t sample calls.
Proof.
  intros Hc. induction calls as [|c' calls IH]; intros t sample.
  - destruct c; try discriminate Hc; reflexivity.
  - destruct c'; cbn [app batches_of_samples]; now rewrite IH.
Qed.

(** Closes a branch in which the computation has ended. *)
Ltac ended :=
  eexists; split;
    [ cbn [bind ret throw undefined call snd trace];
      rewrite <- ?app_assoc; cbn [app];
      first [reflexivity | symmetry; apply app_nil_r]
    | cbn [batches_of_samples]; rewrite ?Z.eqb_refl; reflexivity ].

Lemma batches_of_samples_generation_loop lib handle vocab n :
  forall result n_decoded s sample,
  exists later,
    trace (snd (generation_loop lib handle vocab n result n_decoded s))
      = trace s ++ later /\
    batches_of_samples lib (trace s) sample later = true.
Proof.
  induction n as [|n IH]; intros; cbn [generation_loop].
  - exists []. cbn. now rewrite app_nil_r.
  - destruct (heap s !! handle) as [w|] eqn:Hw.
    2:{ rewrite (bind_field_none _ _ _ _ Hw). exists []. cbn.
        now rewrite app_nil_r. }
    exec. destruct (lib _ (llama_vocab_is_eog _ _)); [ended|].
    exec. destruct (_ <? 0); [ended|].
    assert (Hrest : forall result',
      exists later,
        trace (snd ((
           batch <-
           call lib
             (llama_batch_get_one
                [lib (trace s)
                   (llama_sampler_sample (sampler w) (ctx w) (-1))]
                1);;
           c' <- field ctx handle;;
           decoded <- call lib (llama_decode c' batch);;
           (if negb (decoded =? 0)
            then ret (result', n_decoded)
            else generation_loop lib handle vocab n result' (n_decoded + 1)))
          {| heap := heap s;
             trace := ((trace s
               ++ [llama_sampler_sample (sampler w) (ctx w) (-1)])
               ++ [llama_vocab_is_eog vocab
                     (lib (trace s)
                        (llama_sampler_sample (sampler w) (ctx w) (-1)))])
               ++ [llama_token_to_piece vocab
                     (lib (trace s)
                        (llama_sampler_sample (sampler w) (ctx w) (-1)))
                     256 0 true] |}))
          = trace s ++ later /\
        batches_of_samples lib (trace s) sample later = true).
    { intros result'. exec. destruct (negb _); [ended|].
      match goal with
      | |- context [generation_loop lib handle vocab n ?r ?d ?st] =>
          destruct (IH r d st None) as (later & Ht & Hs)
      end.
      rewrite Ht. cbn [trace] in *. eexists. split.
      - rewrite <- ?app_assoc. cbn [app]. reflexivity.
      - cbn [batches_of_samples]. rewrite Z.eqb_refl. cbn [andb Z.eqb Pos.eqb].
        rewrite <- ?app_assoc in *. cbn [app] in *. exact Hs. }
    destruct (0 <? _).
    + unfold string_append. destruct (_ && _).
      * rewrite bind_ret. apply Hrest.
      * ended.
    + rewrite bind_ret. apply Hrest.
Qed.

Lemma batches_of_samples_generate lib handle vocab limit decode_result s :
  exists later,
    trace (snd ((if negb (decode_result =? 0)
                 then call lib (NewStringUTF EmptyString)
                 else
                   capacity <- int (limit * 4);;
                   string_reserve capacity;;;
                   generated <- generation_loop lib handle vocab
                                  (Z.to_nat limit) EmptyString 0;;
                   call lib (NewStringUTF (c_str (fst generated)))) s))
      = trace s ++ later /\
    batches_of_samples lib (trace s) None later = true.
Proof.
  destruct (negb _); [ended|].
  unfold int. destruct (in_int _); [rewrite bind_ret | ended].
  unfold string_reserve. destruct (_ <? 0); [ended | rewrite bind_ret].
  destruct (batches_of_samples_generation_loop lib handle vocab
              (Z.to_nat limit) EmptyString 0 s None) as (later & Ht & Hs).
  unfold bind.
  destruct (generation_loop _ _ _ _ _ _ _) as [[g| |] s1];
    cbn [snd] in *; try (exists later; now split).
  exists (later ++ [NewStringUTF (c_str (fst g))]). cbn [call snd trace].
  split; [now rewrite Ht, app_assoc|].
  now rewrite batches_of_samples_snoc.
Qed.

(** X11.  From the check of the context length on, the fourth call is the
    batch of the prompt: it is built from the vector of [n_prompt_tokens]
    cells after the second tokenization wrote to it, and declares
    [n_prompt_tokens] tokens, which is the length of that vector, whatever
    the tokenization stored and whatever count it returned (line 273 only
    logs a mismatch).  The vector holds the stored tokens first, as far as
    they fit, and 0 in the cells that were not written.  Every batch after
    it is built from one token, declared as one, and that token is the one
    the sampling of the same iteration gave. *)
Theorem decode_and_generate_batches (lib : oracle) handle j prompt vocab
    n max_tokens s w :
  heap s !! handle = Some w ->
  0 <= n ->
  let ask := llama_n_ctx (ctx w) in
  let n_ctx := uint_to_int (lib (trace s) ask) in
  let buffer := repeat 0 (Z.to_nat n) in
  let fill :=
    llama_tokenize vocab prompt (strlen prompt) (Some buffer)
                   (Z.of_nat (List.length buffer)) true true in
  let stored := snd (lib (trace s ++ [ask]) fill) in
  let tokens := overwrite buffer stored in
  let release := ReleaseStringUTFChars j prompt in
  let prompt_calls := [ask; fill; release; llama_batch_get_one tokens n] in
  limit_defined n_ctx n max_tokens ->
  (exists later,
     trace (snd (decode_and_generate lib handle j prompt vocab n
                                     max_tokens s))
       = trace s ++ prompt_calls ++ later /\
     batches_of_samples lib (trace s ++ prompt_calls) None later = true) /\
  Z.of_nat (List.length tokens) = n /\
  (forall i, (i < Z.to_nat n)%nat ->
     nth_error tokens i =
       if (i <? List.length stored)%nat then nth_error stored i
       else Some 0).
Proof.
  intros Hw Hn. cbv zeta. intros [Hsum Hadj].
  destruct (overwrite_keeps_size (repeat 0 (Z.to_nat n))
              (snd (lib (trace s ++ [llama_n_ctx (ctx w)])
                 (llama_tokenize vocab prompt (strlen prompt)
                    (Some (repeat 0 (Z.to_nat n)))
                    (Z.of_nat (List.length (repeat 0 (Z.to_nat n))))
                    true true))))
    as (_ & Hin & Hout & Hlen).
  specialize (Hlen n Hn).
  split; [|split].
  - unfold decode_and_generate. exec. cbv zeta.
    rewrite (bind_int _ _ _ Hsum).
    destruct (_ <? _) eqn:Hlt;
      [ apply Z.ltb_lt in Hlt; destruct (Hadj Hlt) as [H1 H2];
        exec; rewrite (bind_int _ _ _ H1); rewrite (bind_int _ _ _ H2)
      | ];
      exec;
      match goal with
      | |- context [snd ((if negb (?d =? 0) then _ else
                            bind (int (?limit * 4)) _) ?st)] =>
          destruct (batches_of_samples_generate lib handle vocab limit d st)
            as (later & Ht & Hs);
          eexists; split;
            [ transitivity (trace st ++ later); [exact Ht|];
              cbn [trace]; rewrite ?Hlen, <- ?app_assoc; cbn [app];
              reflexivity
            | cbn [batches_of_samples]; cbn [trace] in Hs;
              rewrite ?Hlen in Hs; rewrite <- ?app_assoc in Hs;
              rewrite <- ?app_assoc; cbn [app] in Hs |- *;
              exact Hs ]
      end.
  - exact Hlen.
  - intros i Hi.
    destruct (Nat.ltb_spec i (List.length
                (snd (lib (trace s ++ [llama_n_ctx (ctx w)])
                   (llama_tokenize vocab prompt (strlen prompt)
                      (Some (repeat 0 (Z.to_nat n)))
                      (Z.of_nat (List.length (repeat 0 (Z.to_nat n))))
                      true true))))) as [Hs|Hs].
    + apply Hin; [exact Hs | now rewrite repeat_length].
    + rewrite (Hout i Hs). apply nth_error_repeat. exact Hi.
Qed.

(** With the sample library the batch of the prompt holds the three tokens
    the tokenization stored. *)
Lemma decode_and_generate_batches_witness :
  exists later,
    trace (snd (decode_and_generate Sample.working 500 1 "hello" 250 3 2
                  Sample.initial))
      = [llama_n_ctx 300;
         llama_tokenize 250 "hello" 5 (Some [0; 0; 0]) 3 true true;
         ReleaseStringUTFChars 1 "hello";
         llama_batch_get_one [1; 15043; 29871] 3] ++ later /\
    batches_of_samples Sample.working
      [llama_n_ctx 300;
       llama_tokenize 250 "hello" 5 (Some [0; 0; 0]) 3 true true;
       ReleaseStringUTFChars 1 "hello";
       llama_batch_get_one [1; 15043; 29871] 3] None later = true.
Proof.
  refine (proj1 (decode_and_generate_batches Sample.working 500 1 "hello"
                   250 3 2 Sample.initial Sample.wrapper _ _ _)).
  - apply lookup_singleton_eq.
  - lia.
  - split; [reflexivity|]. intros H. exfalso. vm_compute in H. discriminate H.
Defined.

Lemma append_cons a s t : (String a s ++ t)%string = String a (s ++ t).
Proof. reflexivity. Qed.

Lemma append_empty_r s : (s ++ EmptyString)%string = s.
Proof. induction s as [|a s IH]; [reflexivity|]. now rewrite append_cons, IH. Qed.

Lemma append_assoc s t u : ((s ++ t) ++ u)%string = (s ++ (t ++ u))%string.
Proof.
  induction s as [|a s IH]; [reflexivity|]. now rewrite !append_cons, IH.
Qed.

Lemma length_append s t :
  String.length (s ++ t) = (String.length s + String.length t)%nat.
Proof.
  induction s as [|a s IH]; [reflexivity|].
  rewrite append_cons. cbn [String.length]. now rewrite IH.
Qed.

Lemma length_substring_from_0 n s :
  (String.length (String.substring 0 n s) <= String.length s)%nat.
Proof.
  revert n. induction s as [|a s IH]; intros [|n]; cbn; try lia.
  specialize (IH n). lia.
Qed.

Lemma extends_by_refl k result : extends_by k result result.
Proof. exists EmptyString. rewrite append_empty_r. cbn. split; [reflexivity | lia]. Qed.

Lemma extends_by_trans a b r1 r2 r3 :
  extends_by a r1 r2 -> extends_by b r2 r3 -> extends_by (a + b) r1 r3.
Proof.
  intros (s1 & -> & H1) (s2 & -> & H2). exists (s1 ++ s2)%string.
  rewrite append_assoc, length_append. split; [reflexivity | lia].
Qed.

Lemma extends_by_le a b r1 r2 :
  (a <= b)%nat -> extends_by a r1 r2 -> extends_by b r1 r2.
Proof. intros H (s1 & -> & H1). exists s1. split; [reflexivity | lia]. Qed.

Section Returns.
Context {A B : Type}.

Lemma returns_ret (Q : A -> Prop) a : Q a -> returns Q (ret a).
Proof. intros H s x [= <-]. exact H. Qed.

Lemma returns_bind (P : A -> Prop) (Q : B -> Prop) (m : M A) (k : A -> M B) :
  returns P m -> (forall x, P x -> returns Q (k x)) -> returns Q (bind m k).
Proof.
  intros Hm Hk s b. unfold bind. specialize (Hm s).
  destruct (m s) as [[x| |] s1]; cbn [fst]; try discriminate.
  intros Hr. exact (Hk x (Hm x eq_refl) s1 b Hr).
Qed.

Lemma returns_after (Q : B -> Prop) (m : M A) (k : A -> M B) :
  (forall x, returns Q (k x)) -> returns Q (bind m k).
Proof.
  intros Hk. apply (returns_bind (fun _ => True)); [now intros ? ? ?|auto].
Qed.

End Returns.

Lemma returns_string_append result stored n :
  returns (extends_by 256 result) (string_append result stored n).
Proof.
  intros s text. unfold string_append.
  destruct (_ <=? _) eqn:E1; cbn [andb]; [|discriminate].
  destruct (_ <=? 256) eqn:E2; cbn; [|discriminate].
  intros [= <-]. eexists. split; [reflexivity|].
  pose proof (length_substring_from_0 (Z.to_nat n) stored).
  apply Z.leb_le in E2. lia.
Qed.

Lemma returns_generation_loop lib handle vocab n :
  forall result n_decoded,
    returns (fun generated => extends_by (256 * n) result (fst generated))
            (generation_loop lib handle vocab n result n_decoded).
Proof.
  induction n as [|n IH]; intros; cbn [generation_loop].
  - apply returns_ret. apply extends_by_refl.
  - do 4 (apply returns_after; intro).
    destruct x2; [apply returns_ret, extends_by_refl|].
    apply returns_after; intro.
    destruct (_ <? 0); [apply returns_ret, extends_by_refl|].
    apply (returns_bind (extends_by 256 result)).
    { destruct (0 <? _); [apply returns_string_append|].
      apply returns_ret, extends_by_refl. }
    intros result' Hstep.
    do 3 (apply returns_after; intro).
    destruct (negb _).
    + apply returns_ret. cbn [fst].
      apply (extends_by_le 256); [lia | exact Hstep].
    + intros s generated Hr.
      apply (extends_by_le (256 + 256 * n)); [lia|].
      apply (extends_by_trans _ _ _ result' _ Hstep).
      exact (IH result' (n_decoded + 1) s generated Hr).
Qed.

(** X12.  The generation loop only adds to the text: when it ends after at
    most [n] iterations, the text it gives back is the text it started
    with followed by at most 256 bytes for each iteration, the size of the
    buffer of line 365. *)
Theorem generation_loop_appends lib handle vocab n result n_decoded s
    text count :
  fst (generation_loop lib handle vocab n result n_decoded s)
    = Returned (text, count) ->
  exists suffix,
    text = (result ++ suffix)%string /\
    (String.length suffix <= 256 * n)%nat.
Proof.
  intros Hr.
  exact (returns_generation_loop lib handle vocab n result n_decoded s
           (text, count) Hr).
Qed.

(** Two iterations with the sample library add ["HiHi"]. *)
Lemma generation_loop_appends_witness :
  exists suffix,
    "HiHi" = (EmptyString ++ suffix)%string /\ (String.length suffix <= 512)%nat.
Proof.
  refine (generation_loop_appends Sample.working 500 250 2 EmptyString 0
            Sample.initial "HiHi" 2 _).
  reflexivity.
Defined.

(** ** The edge of the limit *)

Lemma decode_and_generate_no_limit (lib : oracle) handle j prompt vocab
    n max_tokens s w :
  heap s !! handle = Some w ->
  let ask := llama_n_ctx (ctx w) in
  let n_ctx := uint_to_int (lib (trace s) ask) in
  let buffer := repeat 0 (Z.to_nat n) in
  let fill :=
    llama_tokenize vocab prompt (strlen prompt) (Some buffer)
                   (Z.of_nat (List.length buffer)) true true in
  let tokens := overwrite buffer (snd (lib (trace s ++ [ask]) fill)) in
  let release := ReleaseStringUTFChars j prompt in
  let get_one :=
    llama_batch_get_one tokens (Z.of_nat (List.length tokens)) in
  let decode :=
    llama_decode (ctx w) (lib (trace s ++ [ask; fill; release]) get_one) in
  limit_defined n_ctx n max_tokens ->
  lib (trace s ++ [ask; fill; release; get_one]) decode = 0 ->
  effective_limit n_ctx n max_tokens = 0 ->
  decode_and_generate lib handle j prompt vocab n max_tokens s =
    returning lib EmptyString
      (after s [ask; fill; release; get_one; decode]).
Proof.
  intros Hw. cbv zeta. intros [Hsum Hadj] Hd Hzero.
  unfold decode_and_generate. exec. cbv zeta.
  rewrite (bind_int _ _ _ Hsum). unfold effective_limit in *.
  destruct (_ <? _) eqn:Hlt.
  - apply Z.ltb_lt in Hlt. destruct (Hadj Hlt) as [H1 H2].
    exec. rewrite (bind_int _ _ _ H1). rewrite (bind_int _ _ _ H2).
    exec. rewrite <- ?app_assoc. cbn [app]. rewrite Hd.
    cbn [Z.eqb negb]. rewrite Hzero. rewrite (bind_int (0 * 4) _ _ eq_refl).
    rewrite bind_string_reserve by lia.
    change (Z.to_nat 0) with 0%nat. cbn [generation_loop]. exec.
    cbn [fst c_str]. finish.
  - exec. rewrite <- ?app_assoc. cbn [app]. rewrite Hd.
    cbn [Z.eqb negb]. rewrite Hzero. rewrite (bind_int (0 * 4) _ _ eq_refl).
    rewrite bind_string_reserve by lia.
    change (Z.to_nat 0) with 0%nat. cbn [generation_loop]. exec.
    cbn [fst c_str]. finish.
Qed.

(** X13.  Whatever the library answers, once the prompt is decoded the
    limit decides what a call without room to generate does.  With a
    limit of exactly 0 the loop does not run and the call returns the
    empty string.  With a negative limit, which is what lines 249-252
    leave when fewer than 10 cells of the context are free after the
    prompt, or what a caller passes, the capacity asked of
    [result.reserve] at line 344 is negative and the call ends by the
    exception of the string, without a string to return. *)
Theorem decode_and_generate_without_room (lib : oracle) handle j prompt vocab
    n max_tokens s w :
  heap s !! handle = Some w ->
  let ask := llama_n_ctx (ctx w) in
  let n_ctx := uint_to_int (lib (trace s) ask) in
  let buffer := repeat 0 (Z.to_nat n) in
  let fill :=
    llama_tokenize vocab prompt (strlen prompt) (Some buffer)
                   (Z.of_nat (List.length buffer)) true true in
  let tokens := overwrite buffer (snd (lib (trace s ++ [ask]) fill)) in
  let release := ReleaseStringUTFChars j prompt in
  let get_one :=
    llama_batch_get_one tokens (Z.of_nat (List.length tokens)) in
  let decode :=
    llama_decode (ctx w) (lib (trace s ++ [ask; fill; release]) get_one) in
  let calls := [ask; fill; release; get_one; decode] in
  let limit := effective_limit n_ctx n max_tokens in
  limit_defined n_ctx n max_tokens ->
  lib (trace s ++ [ask; fill; release; get_one]) decode = 0 ->
  (limit = 0 ->
   decode_and_generate lib handle j prompt vocab n max_tokens s =
     returning lib EmptyString (after s calls)) /\
  (limit < 0 -> in_int (limit * 4) = true ->
   decode_and_generate lib handle j prompt vocab n max_tokens s =
     (Thrown alloc_failure, after s calls)).
Proof.
  intros Hw. cbv zeta. intros Hdef Hd. split.
  - intros Hzero.
    exact (decode_and_generate_no_limit lib handle j prompt vocab n
             max_tokens s w Hw Hdef Hd Hzero).
  - intros Hneg Hcap.
    exact (decode_and_generate_negative_limit lib handle j prompt vocab n
             max_tokens s w Hw Hdef Hd Hcap Hneg).
Qed.

(** A prompt of 2038 tokens in the context of 2048 of the sample library
    leaves a limit of 0. *)
Lemma decode_and_generate_without_room_witness :
  fst (decode_and_generate Sample.working 500 1 "hello" 250 2038 100
         Sample.initial) = Returned 900.
Proof.
  destruct (decode_and_generate_without_room Sample.working 500 1 "hello"
              250 2038 100 Sample.initial Sample.wrapper) as [H _].
  - apply lookup_singleton_eq.
  - split; [reflexivity|]. intros _. split; reflexivity.
  - reflexivity.
  - rewrite H; reflexivity.
Defined.

(** ** What an initialisation calls *)

Lemma only_new_wrapper p lib w :
  p (operator_new w) = true -> only p (new_wrapper lib w).
Proof.
  intros H s. exists [operator_new w]. unfold new_wrapper, bind. cbn.
  rewrite H. now destruct (is_null _).
Qed.

(** X14.  Whatever the outside answers, [nativeInit] makes only the calls
    of an initialisation, with the arguments the code fixes: the file is
    opened for reading in binary mode and only measured; the model is
    loaded with no layer on the GPU, with [mmap] and without [mlock]; the
    context is created with [n_ctx = 2048], [n_batch = 512] and 4 threads;
    the samplers are a temperature of 0.8, top-k of 40, top-p of 0.95 with
    at least 1 kept, and the distribution with the default seed.  It never
    tokenizes, decodes or samples, and it frees only the model and the
    backend. *)
Theorem nativeInit_calls lib j s :
  exists added,
    trace (snd (nativeInit lib j s)) = trace s ++ added /\
    forallb init_call added = true.
Proof.
  assert (H : only init_call (nativeInit lib j)).
  { unfold nativeInit, create_sampler. checked.
    now apply only_new_wrapper. }
  apply H.
Qed.
